(** * Soft Actor-Critic agent: the policy network and the agent's update
      and rollout code, embedded over the real numbers.

    Tensors of floats are lists of reals; a batch is a list of rows.  Every
    elementwise binary operation follows the broadcasting rule of the tensor
    library (equal sizes, or one side of size one), and raises otherwise.
    Python exceptions are values of [exn]; stateful code runs in a monad
    that keeps the world reached when an exception is raised. *)

From Stdlib Require Import Reals Lra Lia List ZArith Bool.
From Stdlib Require String.
Import String.StringSyntax.
Local Open Scope string_scope.
Local Open Scope list_scope.
Import ListNotations.
Local Open Scope R_scope.

(** ** Exceptions and results *)

Inductive exn : Type :=
| RuntimeError            (* shape mismatch in a tensor operation *)
| TypeError               (* unsupported operand types *)
| NameError (name : String.string)
| ZeroDivisionError
| IndexError
| CollaboratorError.      (* raised by the environment or the replay buffer *)

Inductive result (A : Type) : Type :=
| Ok (a : A)
| Raise (e : exn).
Arguments Ok {A} a.
Arguments Raise {A} e.

Definition rbind {A B} (r : result A) (k : A -> result B) : result B :=
  match r with
  | Ok a => k a
  | Raise e => Raise e
  end.

Declare Scope result_scope.
Delimit Scope result_scope with result.
Notation "x <-! c ; k" := (rbind c (fun x => k))
  (at level 61, c at next level, right associativity) : result_scope.
Notation "' pat <-! c ; k" := (rbind c (fun x => match x with pat => k end))
  (at level 61, pat pattern, c at next level, right associativity) : result_scope.

(** ** Tensors *)

Definition vec := list R.
Definition matrix := list (list R).

Fixpoint map2 {A B C} (f : A -> B -> C) (xs : list A) (ys : list B) : list C :=
  match xs, ys with
  | x :: xs', y :: ys' => f x y :: map2 f xs' ys'
  | _, _ => []
  end.

(** Elementwise binary operation with broadcasting along one dimension.  A
    zero-dimensional tensor is represented by a one-element list: it
    broadcasts exactly like a dimension of size one. *)
Definition bcast2 (f : R -> R -> R) (x y : vec) : result vec :=
  if (length x =? length y)%nat then Ok (map2 f x y)
  else match x, y with
       | [a], _ => Ok (map (f a) y)
       | _, [b] => Ok (map (fun a => f a b) x)
       | _, _ => Raise RuntimeError
       end.

(** In-place elementwise operation [x op= y]: the result keeps the shape of
    [x], so [y] must broadcast to it. *)
Definition bcast2_inplace (f : R -> R -> R) (x y : vec) : result vec :=
  if (length x =? length y)%nat then Ok (map2 f x y)
  else match y with
       | [b] => Ok (map (fun a => f a b) x)
       | _ => Raise RuntimeError
       end.

Definition vsum (x : vec) : R := fold_right Rplus 0 x.

Definition dot (x y : vec) : R := vsum (map2 Rmult x y).

(** Mean over all the elements of a tensor. *)
Definition tmean (x : vec) : R := vsum x / INR (length x).

(** ** model.py *)

Definition LOG_SIG_MAX : R := 2.
Definition LOG_SIG_MIN : R := -20.
Definition epsilon : R := 1 / 1000000.

(** [nn.Linear(n_in, n_out)]: a weight matrix of [n_out] rows of length
    [n_in], and a bias of length [n_out]. *)
Record Linear : Type := mkLinear {
  weight : matrix;
  bias : vec
}.

(** [layer(x)] for one row [x]: [x * W^T + b]. *)
Definition linear (l : Linear) (x : vec) : result vec :=
  if forallb (fun row => (length row =? length x)%nat) (weight l)
     && (length (weight l) =? length (bias l))%nat
  then Ok (map2 (fun row b => dot row x + b) (weight l) (bias l))
  else Raise RuntimeError.

Definition relu (x : vec) : vec := map (Rmax 0) x.

(** [torch.clamp(x, min=lo, max=hi)]. *)
Definition clamp (lo hi : R) (x : vec) : vec :=
  map (fun v => Rmin (Rmax v lo) hi) x.

(** The action space of the environment: per-dimension bounds of one shape. *)
Record Box : Type := mkBox {
  low : vec;
  high : vec
}.

Record Actor : Type := mkActor {
  linear1 : Linear;
  linear2 : Linear;
  mean_linear : Linear;
  log_std_linear : Linear;
  action_scale : vec;
  action_bias : vec
}.

(** [weights_init_]: the weight is drawn by the Xavier-uniform scheme (taken
    here as the argument [w]), the bias is set to zero. *)
Definition weights_init_ (w : matrix) : Linear :=
  {| weight := w; bias := map (fun _ => 0) w |}.

(** [Actor.__init__]; the four arguments [w1 .. ws] are the initial weights
    of the four layers. *)
Definition Actor_init (w1 w2 wm ws : matrix) (action_space : option Box) : Actor :=
  {| linear1 := weights_init_ w1;
     linear2 := weights_init_ w2;
     mean_linear := weights_init_ wm;
     log_std_linear := weights_init_ ws;
     action_scale :=
       match action_space with
       | None => [1]
       | Some sp => map2 (fun h l => (h - l) / 2) (high sp) (low sp)
       end;
     action_bias :=
       match action_space with
       | None => [0]
       | Some sp => map2 (fun h l => (h - l) / 2) (high sp) (low sp)
       end |}.

Local Open Scope result_scope.

(** [Actor.forward] on one row of the batch. *)
Definition forward (self : Actor) (state : vec) : result (vec * vec) :=
  h1 <-! linear (linear1 self) state ;
  let x := relu h1 in
  h2 <-! linear (linear2 self) x ;
  let x := relu h2 in
  mean <-! linear (mean_linear self) x ;
  log_std <-! linear (log_std_linear self) x ;
  let log_std := clamp LOG_SIG_MIN LOG_SIG_MAX log_std in
  Ok (mean, log_std).

(** [Normal(loc, scale).log_prob(value)]:
    [-((value - loc) ** 2) / (2 * var) - log_scale - log(sqrt(2 * pi))]
    with [var = scale ** 2] and [log_scale = scale.log()]. *)
Definition Normal_log_prob (loc scale value : vec) : result vec :=
  d <-! bcast2 Rminus value loc ;
  let var := map (fun s => s ^ 2) scale in
  let log_scale := map ln scale in
  q <-! bcast2 (fun a v => - (a ^ 2) / (2 * v)) d var ;
  r <-! bcast2 Rminus q log_scale ;
  Ok (map (fun v => v - ln (sqrt (2 * PI))) r).

(** [Normal(loc, scale).rsample()]: [loc + eps * scale], where [eps] is the
    standard-normal noise drawn for this row. *)
Definition Normal_rsample (loc scale eps : vec) : result vec :=
  es <-! bcast2 Rmult eps scale ;
  bcast2 Rplus loc es.

(** [Actor.sample] on one row of the batch, given the noise [eps] drawn by
    [rsample] for that row.  Returns [(action, log_prob, mean)]; [log_prob]
    is the single entry that [sum(1, keepdim=True)] leaves for the row. *)
Definition sample (self : Actor) (state eps : vec) : result (vec * R * vec) :=
  '(mean, log_std) <-! forward self state ;
  let std := map exp log_std in
  x_t <-! Normal_rsample mean std eps ;
  let y_t := map tanh x_t in
  ys <-! bcast2 Rmult y_t (action_scale self) ;
  action <-! bcast2 Rplus ys (action_bias self) ;
  log_prob <-! Normal_log_prob mean std x_t ;
  jac <-! bcast2 Rmult (action_scale self) (map (fun y => 1 - y ^ 2) y_t) ;
  log_prob <-! bcast2_inplace Rminus log_prob
                 (map (fun j => ln (j + epsilon)) jac) ;
  let log_prob := vsum log_prob in
  ms <-! bcast2 Rmult (map tanh mean) (action_scale self) ;
  mean <-! bcast2 Rplus ms (action_bias self) ;
  Ok (action, log_prob, mean).

(** [sample] on every row of a batch, given the noise of every row. *)
Fixpoint sample_rows (self : Actor) (states eps : list vec)
  : result (list (vec * R * vec)) :=
  match states, eps with
  | s :: states', e :: eps' =>
      r <-! sample self s e ;
      rs <-! sample_rows self states' eps' ;
      Ok (r :: rs)
  | _, _ => Ok []
  end.

(** ** Python values of mixed type

    Line 66 of agent.py applies [-] to a tuple and a tensor, so the operands
    of that expression are modelled with their dynamic types. *)

#[warnings="-register-all"]
Inductive pyval : Type :=
| PyFloat (r : R)
| PyTensor (t : vec)
| PyTuple (items : list pyval).

(** [a - b]: [tuple] defines no subtraction, and the reflected subtraction
    of a tensor does not accept a tuple. *)
Definition py_sub (a b : pyval) : result pyval :=
  match a, b with
  | PyFloat x, PyFloat y => Ok (PyFloat (x - y))
  | PyFloat x, PyTensor y => Ok (PyTensor (map (fun v => x - v) y))
  | PyTensor x, PyFloat y => Ok (PyTensor (map (fun v => v - y) x))
  | PyTensor x, PyTensor y => t <-! bcast2 Rminus x y ; Ok (PyTensor t)
  | PyTuple _, _ => Raise TypeError
  | _, PyTuple _ => Raise TypeError
  end.

(** [v.mean()]: only a tensor has the method. *)
Definition py_mean (v : pyval) : result R :=
  match v with
  | PyTensor t => Ok (tmean t)
  | _ => Raise TypeError
  end.

(** ** Collaborators of the agent *)

Record Transition : Type := mkTransition {
  t_state : vec;
  t_action : vec;
  t_reward : R;
  t_next_state : vec;
  t_mask : R
}.

(** Modelled from the spec: the twin critic, a class [Critic] that model.py
    is expected to export and does not define.  Its contract is
    [forward(state, action) -> (q1, q2)], two scalar estimates per row. *)
Class Critic : Type := {
  CriticNet : Type;
  critic_forward : CriticNet -> vec -> vec -> R * R
}.

(** An optimizer over parameters [P] ([torch.optim.Adam]): [zero_grad],
    [loss.backward()] and [step()] together map the loss, as a function of
    the parameters, the parameters and the running moments to the new
    parameters and moments. *)
Class Optimizer (P : Type) : Type := {
  OptState : Type;
  opt_step : (P -> result R) -> P -> OptState -> P * OptState
}.

(** Modelled from the spec: the replay buffer of buffer.py, consumed through
    [store_transition], [can_sample] and [sample_buffer]; sampling returns
    a batch of aligned transitions and may advance the buffer's sampler. *)
Class ReplayBuffer : Type := {
  Memory : Type;
  store_transition : Memory -> Transition -> result unit * Memory;
  can_sample : Memory -> Z -> result bool * Memory;
  sample_buffer : Memory -> Z -> result (list Transition) * Memory
}.

(** The environment: [reset() -> (state, info)] and
    [step(action) -> (next_state, reward, done, truncated, info)], of which
    the agent reads the state, the reward and [done]. *)
Class Environment : Type := {
  EnvState : Type;
  env_reset : EnvState -> result vec * EnvState;
  env_step : EnvState -> vec -> result (vec * R * bool) * EnvState
}.

(** ** Computations on a world

    Computations that change a world [W] and may raise; the world reached
    when an exception is raised is kept, as Python keeps the mutations made
    before a raise. *)

Definition M (W A : Type) : Type := W -> result A * W.

Definition ret {W A} (a : A) : M W A := fun w => (Ok a, w).

Definition bind {W A B} (c : M W A) (k : A -> M W B) : M W B :=
  fun w => match c w with
           | (Ok a, w') => k a w'
           | (Raise e, w') => (Raise e, w')
           end.

Definition raise {W A} (e : exn) : M W A := fun w => (Raise e, w).

Definition lift {W A} (r : result A) : M W A := fun w => (r, w).

Definition gets {W A} (f : W -> A) : M W A := fun w => (Ok (f w), w).

Definition modify {W} (f : W -> W) : M W unit := fun w => (Ok tt, f w).

(** Whatever its outcome, [c] leaves the world related by [Rw] to the one
    it started from. *)
Definition preserves {W A} (Rw : W -> W -> Prop) (c : M W A) : Prop :=
  forall w, Rw w (snd (c w)).

Declare Scope agent_scope.
Delimit Scope agent_scope with agent.
Notation "x <- c ;; k" := (bind c (fun x => k))
  (at level 61, c at next level, right associativity) : agent_scope.
Notation "' pat <- c ;; k" := (bind c (fun x => match x with pat => k end))
  (at level 61, pat pattern, c at next level, right associativity) : agent_scope.
Notation "c ;; k" := (bind c (fun _ => k))
  (at level 61, right associativity) : agent_scope.

Fixpoint mapM {W A B} (f : A -> M W B) (l : list A) : M W (list B) :=
  match l with
  | [] => ret []
  | a :: l' => bind (f a) (fun b => bind (mapM f l') (fun bs => ret (b :: bs)))
  end.

Fixpoint mapR {A B} (f : A -> result B) (l : list A) : result (list B) :=
  match l with
  | [] => Ok []
  | a :: l' => rbind (f a) (fun b => rbind (mapR f l') (fun bs => Ok (b :: bs)))
  end.

(** [for i in range(n)] with the loop-carried value [acc]; [i] counts up
    from [start]. *)
Fixpoint for_range {W A} (n : nat) (start : Z) (body : Z -> A -> M W A) (acc : A)
  : M W A :=
  match n with
  | O => ret acc
  | S n' => bind (body start acc) (for_range n' (start + 1)%Z body)
  end.

(** The size of the broadcast of two sizes. *)
Definition bshape (a b : nat) : result nat :=
  if (a =? b)%nat then Ok a
  else if (a =? 1)%nat then Ok b
  else if (b =? 1)%nat then Ok a
  else Raise RuntimeError.

(** [F.mse_loss(input, target)]. *)
Definition mse_loss (input target : vec) : result R :=
  d <-! bcast2 (fun a b => (a - b) ^ 2) input target ;
  Ok (tmean d).

(** ** agent.py *)

Section AgentModel.

Context {CR : Critic} {CO : Optimizer CriticNet} {AO : Optimizer Actor}
        {RB : ReplayBuffer} {EV : Environment}.

Record Agent : Type := mkAgent {
  alpha : R;
  gamma : R;
  tau : R;
  target_update_interval : Z;
  critic : CriticNet;
  critic_optim : @OptState CriticNet CO;
  critic_target : CriticNet;
  actor : Actor;
  actor_optim : @OptState Actor AO
}.

(** Everything the agent's methods read or change: the agent itself, the
    replay buffer and the environment it is handed, the generator of
    standard-normal noise (a tape and a cursor), the scalars sent to the
    summary writer, and the record of the transitions passed to
    [store_transition], most recent first. *)
Record World : Type := mkWorld {
  self : Agent;
  memory : Memory;
  env : EnvState;
  noise : nat -> R;
  cursor : nat;
  writer : list (String.string * R * Z);
  stored : list Transition
}.

Definition set_self (a : Agent) (w : World) : World :=
  mkWorld a (memory w) (env w) (noise w) (cursor w) (writer w) (stored w).
Definition set_memory (m : Memory) (w : World) : World :=
  mkWorld (self w) m (env w) (noise w) (cursor w) (writer w) (stored w).
Definition set_env (e : EnvState) (w : World) : World :=
  mkWorld (self w) (memory w) e (noise w) (cursor w) (writer w) (stored w).
Definition set_cursor (c : nat) (w : World) : World :=
  mkWorld (self w) (memory w) (env w) (noise w) c (writer w) (stored w).
Definition set_writer (l : list (String.string * R * Z)) (w : World) : World :=
  mkWorld (self w) (memory w) (env w) (noise w) (cursor w) l (stored w).
Definition set_stored (l : list Transition) (w : World) : World :=
  mkWorld (self w) (memory w) (env w) (noise w) (cursor w) (writer w) l.

Local Open Scope agent_scope.

(** [k] fresh standard-normal values. *)
Definition draw (k : nat) : M World vec :=
  fun w => (Ok (map (noise w) (seq (cursor w) k)),
            set_cursor (cursor w + k)%nat w).

(** [writer.add_scalar(tag, value, step)]. *)
Definition add_scalar (tag : String.string) (value : R) (step : Z)
  : M World unit :=
  modify (fun w => set_writer ((tag, value, step) :: writer w) w).

(** [memory.can_sample(batch_size=n)]. *)
Definition memory_can_sample (n : Z) : M World bool :=
  fun w => let (r, m) := can_sample (memory w) n in (r, set_memory m w).

(** [memory.sample_buffer(batch_size=n)]. *)
Definition memory_sample_buffer (n : Z) : M World (list Transition) :=
  fun w => let (r, m) := sample_buffer (memory w) n in (r, set_memory m w).

(** [memory.store_transition(state, action, reward, next_state, mask)]. *)
Definition memory_store_transition (t : Transition) : M World unit :=
  fun w => let (r, m) := store_transition (memory w) t in
           (r, set_stored (t :: stored w) (set_memory m w)).

(** [env.reset()]. *)
Definition env_reset_call : M World vec :=
  fun w => let (r, e) := env_reset (env w) in (r, set_env e w).

(** [env.step(action)]. *)
Definition env_step_call (action : vec) : M World (vec * R * bool) :=
  fun w => let (r, e) := env_step (env w) action in (r, set_env e w).

(** The noise that [Actor.sample] draws on a batch: [forward] runs on the
    whole batch, [Normal(mean, std)] broadcasts its arguments, and
    [rsample] draws one value per entry of the broadcast shape. *)
Definition rsample_noise (states : list vec) : M World (list vec) :=
  a <- gets (fun w => actor (self w)) ;;
  fw <- lift (mapR (forward a) states) ;;
  mapM (fun ml : vec * vec =>
          k <- lift (bshape (length (fst ml)) (length (snd ml))) ;;
          draw k) fw.

(** [self.actor.sample(states)] on a batch. *)
Definition Actor_sample (states : list vec) : M World (list (vec * R * vec)) :=
  eps <- rsample_noise states ;;
  a <- gets (fun w => actor (self w)) ;;
  lift (sample_rows a states eps).

(** [Agent.select_action]. *)
Definition select_action (state : vec) (evaluate : bool) : M World vec :=
  let state := [state] in
  out <- Actor_sample state ;;
  let action :=
    if Bool.eqb evaluate false
    then map (fun r : vec * R * vec => fst (fst r)) out
    else map (fun r : vec * R * vec => snd r) out in
  match action with
  | a :: _ => ret a
  | [] => raise IndexError
  end.

(** [self.critic(states, actions)] on a batch: the two columns of values. *)
Definition critic_batch (c : CriticNet) (states actions : list vec) : vec * vec :=
  let q := map2 (critic_forward c) states actions in
  (map fst q, map snd q).

(** Lines 46-50 of [update_parameters]: the TD target of a batch. *)
Definition next_q_value (batch : list Transition) : M World vec :=
  let next_state_batch := map t_next_state batch in
  let reward_batch := map t_reward batch in
  let mask_batch := map t_mask batch in
  out <- Actor_sample next_state_batch ;;
  ag <- gets self ;;
  let next_state_action := map (fun r : vec * R * vec => fst (fst r)) out in
  let next_state_log_pi := map (fun r : vec * R * vec => snd (fst r)) out in
  let '(qf1_next_target, qf2_next_target) :=
    critic_batch (critic_target ag) next_state_batch next_state_action in
  lift (m <-! bcast2 Rmin qf1_next_target qf2_next_target ;
        min_qf_next_target <-!
          bcast2 Rminus m (map (Rmult (alpha ag)) next_state_log_pi) ;
        b <-! bcast2 Rmult (map (fun k => k * gamma ag) mask_batch)
                min_qf_next_target ;
        bcast2 Rplus reward_batch b)%result.

(** Lines 52-54: the two critic losses, as a function of the critic. *)
Definition qf_losses (state_batch action_batch : list vec) (target : vec)
    (c : CriticNet) : result (R * R) :=
  (let '(qf1, qf2) := critic_batch c state_batch action_batch in
   qf1_loss <-! mse_loss qf1 target ;
   qf2_loss <-! mse_loss qf2 target ;
   Ok (qf1_loss, qf2_loss))%result.

(** Lines 63-66: the actor loss, as a function of the actor, for the noise
    [eps] drawn by [sample]. *)
Definition actor_loss (alpha_ : R) (c : CriticNet) (state_batch eps : list vec)
    (a : Actor) : result R :=
  (out <-! sample_rows a state_batch eps ;
   let pi := map (fun r : vec * R * vec => fst (fst r)) out in
   let log_pi := map (fun r : vec * R * vec => snd (fst r)) out in
   let '(qf1_pi, qf2_pi) := critic_batch c state_batch pi in
   min_qf_pi <-! bcast2 Rmin qf1_pi qf2_pi ;
   d <-! py_sub (PyTuple [PyFloat alpha_; PyTensor log_pi])
           (PyTensor min_qf_pi) ;
   py_mean d)%result.

Definition with_critic (ag : Agent) (c : CriticNet) (o : @OptState CriticNet CO)
  : Agent :=
  mkAgent (alpha ag) (gamma ag) (tau ag) (target_update_interval ag)
          c o (critic_target ag) (actor ag) (actor_optim ag).

Definition with_actor (ag : Agent) (a : Actor) (o : @OptState Actor AO) : Agent :=
  mkAgent (alpha ag) (gamma ag) (tau ag) (target_update_interval ag)
          (critic ag) (critic_optim ag) (critic_target ag) a o.

(** Lines 76-78: the target synchronisation. *)
Definition target_sync (updates : Z) : M World unit :=
  ag <- gets self ;;
  if (target_update_interval ag =? 0)%Z then raise ZeroDivisionError
  else if (updates mod target_update_interval ag =? 0)%Z
       then ret tt   (* pass *)
       else ret tt.

(** [self.critic_optim.zero_grad(); qf_loss.backward();
    self.critic_optim.step()]: the critic and its optimizer change in
    place. *)
Definition critic_optim_step (loss : CriticNet -> result R) : M World unit :=
  modify (fun w =>
            let ag := self w in
            let (c', o') := opt_step loss (critic ag) (critic_optim ag) in
            set_self (with_critic ag c' o') w).

(** [self.actor_optim.zero_grad(); actor_loss.backward();
    self.actor_optim.step()]. *)
Definition actor_optim_step (loss : Actor -> result R) : M World unit :=
  modify (fun w =>
            let ag := self w in
            let (a', o') := opt_step loss (actor ag) (actor_optim ag) in
            set_self (with_actor ag a' o') w).

(** [Agent.update_parameters]. *)
Definition update_parameters (batch_size updates : Z)
  : M World (R * R * R * R * R) :=
  batch <- memory_sample_buffer batch_size ;;
  let state_batch := map t_state batch in
  let action_batch := map t_action batch in
  (* compute critic loss *)
  target <- next_q_value batch ;;
  ag <- gets self ;;
  let losses := qf_losses state_batch action_batch target in
  qf_loss <- lift (losses (critic ag)) ;;
  (* update critic network *)
  critic_optim_step (fun c => rbind (losses c) (fun l => Ok (fst l + snd l))) ;;
  (* compute actor policy loss *)
  eps <- rsample_noise state_batch ;;
  ag <- gets self ;;
  let loss := actor_loss (alpha ag) (critic ag) state_batch eps in
  actor_loss_ <- lift (loss (actor ag)) ;;
  (* update actor network *)
  actor_optim_step loss ;;
  let alpha_loss := 0 in
  let alpha_tlogs := alpha ag in
  target_sync updates ;;
  ret (fst qf_loss, snd qf_loss, actor_loss_, alpha_loss, alpha_tlogs).

(** [Agent.save_checkpoint]: [pass]. *)
Definition save_checkpoint : M World unit := ret tt.

(** The local variables of [train] that its loops carry. *)
Record Locals : Type := mkLocals {
  total_numsteps : Z;
  updates : Z;
  episode_reward : R;
  episode_steps : Z;
  done : bool;
  state : vec
}.

(** Line 100 reads the name [batch_sizem].  [train] binds [self], [env],
    [memory], [episodes], [batch_size], [updates_per_step],
    [summary_writer_name], [max_episode_steps] and its own local variables;
    neither the module nor the builtins bind [batch_sizem]. *)
Definition batch_sizem : M World Z := raise (NameError "batch_sizem").

(** Lines 98-105: the gradient updates of one environment step; carries the
    update counter. *)
Definition update_block (batch_size updates_per_step : Z) (updates : Z)
  : M World Z :=
  can <- memory_can_sample batch_size ;;
  if (can : bool) then
    for_range (Z.to_nat updates_per_step) 0
      (fun i updates =>
         b <- batch_sizem ;;
         '(critic_1_loss, critic_2_loss, actor_loss_, ent_loss, alpha_) <-
           update_parameters b updates ;;
         add_scalar "loss/critic_1" critic_1_loss updates ;;
         add_scalar "loss/critic_2" critic_2_loss updates ;;
         add_scalar "loss/actor" actor_loss_ updates ;;
         add_scalar "loss/entropy_loss" ent_loss updates ;;
         ret (updates + 1)%Z)
      updates
  else ret updates.

(** Line 113: [1 if episode_steps == max_episode_steps else float(not done)]. *)
Definition mask (episode_steps max_episode_steps : Z) (done : bool) : R :=
  if (episode_steps =? max_episode_steps)%Z then 1
  else if negb done then 1 else 0.

(** Lines 97-117: the body of the [while] loop. *)
Definition train_step (batch_size updates_per_step max_episode_steps : Z)
    (L : Locals) : M World Locals :=
  action <- select_action (state L) false ;;
  updates <- update_block batch_size updates_per_step (updates L) ;;
  '(next_state, reward, done) <- env_step_call action ;;
  let episode_steps := (episode_steps L + 1)%Z in
  let total_numsteps := (total_numsteps L + 1)%Z in
  let episode_reward := episode_reward L + reward in
  let mask := mask episode_steps max_episode_steps done in
  memory_store_transition
    (mkTransition (state L) action reward next_state mask) ;;
  ret (mkLocals total_numsteps updates episode_reward episode_steps done
                next_state).

(** Line 96: [while not done and episode_steps < max_episode_steps].  The
    loop runs at most [fuel] times; [run_episode] hands it the number of
    steps left to the cap, which it never exceeds. *)
Fixpoint episode_loop (fuel : nat)
    (batch_size updates_per_step max_episode_steps : Z) (L : Locals)
  : M World Locals :=
  match fuel with
  | O => ret L
  | S fuel' =>
      if negb (done L) && (episode_steps L <? max_episode_steps)%Z then
        L' <- train_step batch_size updates_per_step max_episode_steps L ;;
        episode_loop fuel' batch_size updates_per_step max_episode_steps L'
      else ret L
  end.

Definition run_episode (batch_size updates_per_step max_episode_steps : Z)
    (L : Locals) : M World Locals :=
  episode_loop (Z.to_nat (max_episode_steps - episode_steps L))
               batch_size updates_per_step max_episode_steps L.

(** Lines 91-123: one episode; carries [(total_numsteps, updates)].  The
    [print] of line 120 is left out. *)
Definition train_episode (batch_size updates_per_step max_episode_steps : Z)
    (episode : Z) (tu : Z * Z) : M World (Z * Z) :=
  state <- env_reset_call ;;
  L <- run_episode batch_size updates_per_step max_episode_steps
         (mkLocals (fst tu) (snd tu) 0 0 false state) ;;
  add_scalar "reward/train" (episode_reward L) episode ;;
  (if (episode mod 10 =? 0)%Z then save_checkpoint else ret tt) ;;
  ret (total_numsteps L, updates L).

(** [Agent.train]; the environment and the replay buffer it is handed are
    those of the world, and the summary writer it creates is the world's. *)
Definition train (episodes batch_size updates_per_step max_episode_steps : Z)
  : M World unit :=
  let total_numsteps := 0%Z in
  let updates := 0%Z in
  for_range (Z.to_nat episodes) 0
    (train_episode batch_size updates_per_step max_episode_steps)
    (total_numsteps, updates) ;;
  ret tt.

End AgentModel.

Arguments Agent {CR CO AO}.
Arguments World {CR CO AO RB EV}.

(** ** Specification-side notions *)

(** A mask is one of the two floats 0 and 1. *)
Definition mask01 (t : Transition) : Prop := t_mask t = 0 \/ t_mask t = 1.

Section AgentNotions.

Context {CR : Critic} {CO : Optimizer CriticNet} {AO : Optimizer Actor}
        {RB : ReplayBuffer} {EV : Environment}.

(** The second world differs from the first in the noise cursor at most. *)
Definition only_cursor (w w' : World) : Prop := w' = set_cursor (cursor w') w.

(** The TD target of one transition [t], for the output [o] of
    [Actor.sample] on its next state:
    [reward + mask * gamma * (min(Q1', Q2') - alpha * log_prob)] with the
    two heads of the target critic at the next state and the next action. *)
Definition td_target_row (ag : Agent) (t : Transition) (o : vec * R * vec) : R :=
  let q := critic_forward (critic_target ag) (t_next_state t) (fst (fst o)) in
  t_reward t + t_mask t * gamma ag * (Rmin (fst q) (snd q) - alpha ag * snd (fst o)).

(** The soft value estimate of the same next state and sampled action. *)
Definition soft_value (ag : Agent) (t : Transition) (o : vec * R * vec) : R :=
  let q := critic_forward (critic_target ag) (t_next_state t) (fst (fst o)) in
  Rmin (fst q) (snd q) - alpha ag * snd (fst o).

(** The second world has the target critic of the first. *)
Definition same_target (w w' : World) : Prop :=
  critic_target (self w') = critic_target (self w).

(** The second world has the record of stored transitions of the first. *)
Definition same_stored (w w' : World) : Prop := stored w' = stored w.

(** The transitions stored between the two worlds all carry a mask in
    {0, 1}. *)
Definition stores_masked (w w' : World) : Prop :=
  exists new, stored w' = new ++ stored w /\ Forall mask01 new.

End AgentNotions.

(** A weight matrix of [rows] rows of [cols] entries, the shape that
    [nn.Linear(cols, rows)] draws. *)
Definition Matrix_shape (rows cols : nat) (w : matrix) : Prop :=
  length w = rows /\ Forall (fun r => length r = cols) w.

(** The transitions [ts], oldest first, lead from the state [s] to the
    state [s_end]: each starts where the one before it ended. *)
Fixpoint chain (s : vec) (ts : list Transition) (s_end : vec) : Prop :=
  match ts with
  | [] => s = s_end
  | t :: ts' => t_state t = s /\ chain (t_next_state t) ts' s_end
  end.

Section AgentConstruction.

Context {CR : Critic} {CO : Optimizer CriticNet} {AO : Optimizer Actor}
        {RB : ReplayBuffer} {EV : Environment}.

(** [Agent.__init__(n_inputs, action_space, gamma, tau, alpha,
    target_update_interval, hidden_size, learning_rate, goal)].  What the
    constructor draws or creates is taken as arguments: the initial
    parameters [c0] of the critic and [ct0] of the target critic (two
    separate [Critic(...)] calls), the initial weights [w1 .. ws] of the
    actor's layers, and the fresh states [co0], [ao0] of the two Adam
    optimizers.  The actor is built for [action_space]. *)
Definition Agent_init (action_space : Box) (gamma_ tau_ alpha_ : R)
    (target_update_interval_ : Z)
    (c0 : CriticNet) (co0 : @OptState CriticNet CO) (ct0 : CriticNet)
    (w1 w2 wm ws : matrix) (ao0 : @OptState Actor AO) : Agent :=
  {| alpha := alpha_;
     gamma := gamma_;
     tau := tau_;
     target_update_interval := target_update_interval_;
     critic := c0;
     critic_optim := co0;
     critic_target := ct0;
     actor := Actor_init w1 w2 wm ws (Some action_space);
     actor_optim := ao0 |}.

(** The second world has the agent of the first. *)
Definition same_self (w w' : World) : Prop := self w' = self w.

(** The scalars written between the two worlds all carry the tag
    [reward/train]. *)
Definition writes_rewards (w w' : World) : Prop :=
  exists new,
    writer w' = new ++ writer w /\
    Forall (fun x : String.string * R * Z => fst (fst x) = "reward/train") new.

End AgentConstruction.


(** [tab n g] is the tensor [[g 0; ...; g (n-1)]]. *)
Definition tab (n : nat) (g : nat -> R) : vec := map g (seq 0 n).

(** Entry [i] of a parameter that broadcasts along the action dimension. *)
Definition bc (p : vec) (i : nat) : R :=
  match p with
  | [b] => b
  | _ => nth i p 0
  end.

Definition broadcastable (p : vec) (n : nat) : Prop :=
  length p = n \/ length p = 1%nat.

(** The density of the normal distribution of mean [m] and deviation [s]. *)
Definition gaussian_density (m s x : R) : R :=
  / (s * sqrt (2 * PI)) * exp (- ((x - m) ^ 2 / (2 * s ^ 2))).

(** A valid action space: bounds of one shape with [low <= high]. *)
Definition valid_space (sp : Box) : Prop :=
  length (low sp) = length (high sp) /\
  forall i, (i < length (low sp))%nat -> nth i (low sp) 0 <= nth i (high sp) 0.

(** The shapes that [nn.Linear(n_in, n_out)] gives a layer. *)
Definition Linear_shape (n_in n_out : nat) (l : Linear) : Prop :=
  length (weight l) = n_out /\ length (bias l) = n_out /\
  Forall (fun row => length row = n_in) (weight l).

(** The shapes that [Actor.__init__(n_inputs, n_actions, hidden_dim, ...)]
    gives an actor, with rescaling tensors that broadcast along the action
    dimension. *)
Definition Actor_shape (n_inputs n_actions hidden_dim : nat) (a : Actor) : Prop :=
  Linear_shape n_inputs hidden_dim (linear1 a) /\
  Linear_shape hidden_dim hidden_dim (linear2 a) /\
  Linear_shape hidden_dim n_actions (mean_linear a) /\
  Linear_shape hidden_dim n_actions (log_std_linear a) /\
  broadcastable (action_scale a) n_actions /\
  broadcastable (action_bias a) n_actions.

(** The raw sample [x_t] of [Actor.sample], entry [i]. *)
Definition raw_sample (mean log_std eps : vec) (i : nat) : R :=
  nth i mean 0 + nth i eps 0 * exp (nth i log_std 0).

(** The noise that a batch of [B] rows of [n] actions draws from the tape
    [noise] at position [cursor]: row [j] takes the [n] values that start at
    [cursor + j * n]. *)
Definition batch_noise (noise : nat -> R) (cursor n B : nat) : list vec :=
  map (fun j => map noise (seq (cursor + j * n) n)) (seq 0 B).


(** ** A small concrete agent, environment and buffer *)

(** One input, one hidden unit, one action; every weight is zero. *)
Definition actor0 (action_space : option Box) : Actor :=
  Actor_init [[0]] [[0]] [[0]] [[0]] action_space.

Definition unit_box : Box := {| low := [-1]; high := [1] |}.

(** A critic with one parameter, its value estimates do not depend on the
    row. *)
#[local] Instance critic0 : Critic :=
  {| CriticNet := R; critic_forward := fun c _ _ => (c, c + 1) |}.

(** An optimizer with learning rate zero. *)
#[local] Instance frozen (P : Type) : Optimizer P :=
  {| OptState := unit; opt_step := fun _ p o => (p, o) |}.

(** A buffer that keeps every transition and samples the most recent. *)
#[local] Instance buffer0 : ReplayBuffer :=
  {| Memory := list Transition;
     store_transition := fun m t => (Ok tt, t :: m);
     can_sample := fun m n => (Ok (n <=? Z.of_nat (length m))%Z, m);
     sample_buffer := fun m n => (Ok (firstn (Z.to_nat n) m), m) |}.

(** An environment whose state counts the steps and that signals [done]
    from the second step on. *)
#[local] Instance env0 : Environment :=
  {| EnvState := Z;
     env_reset := fun _ => (Ok [0], 0%Z);
     env_step := fun e _ => (Ok ([0], 1, (2 <=? e + 1)%Z), (e + 1)%Z) |}.

Definition agent0 (action_space : option Box) : Agent :=
  mkAgent (1 / 5) 1 (1 / 200) 1 0 tt 1 (actor0 action_space) tt.

Definition world0 (action_space : option Box) (m : list Transition) : World :=
  mkWorld (agent0 action_space) m 0%Z (fun _ => 1) 0 [] [].

(** The same agent with [tau = 1]: its critic is [0], its target critic
    is [1]. *)
Definition world_tau1 : World :=
  mkWorld (mkAgent (1 / 5) 1 1 1 0 tt 1 (actor0 None) tt) [] 0%Z (fun _ => 1)
          0 [] [].

(** A terminal transition and the locals of [train] at the start of an
    episode. *)
Definition transition0 : Transition := mkTransition [0] [0] 1 [0] 0.

Definition locals0 : Locals := mkLocals 0 0 0 0 false [0].

(** A buffer that keeps every transition and never reports that it can
    sample. *)
Definition buffer_never : ReplayBuffer :=
  {| Memory := list Transition;
     store_transition := fun m t => (Ok tt, t :: m);
     can_sample := fun m n => (Ok false, m);
     sample_buffer := fun m n => (Ok (firstn (Z.to_nat n) m), m) |}.

Definition world_never : @World critic0 (frozen _) (frozen _) buffer_never env0 :=
  mkWorld (RB := buffer_never) (agent0 None) [] 0%Z (fun _ => 1) 0 [] [].

(** A transition whose next state has two entries. *)
Definition transition_bad : Transition := mkTransition [0] [0] 1 [0; 0] 0.

(** An action space of two dimensions, for an actor of one action. *)
Definition box2 : Box := {| low := [-1; -1]; high := [1; 1] |}.

(** ** Tensors: lemmas *)

Lemma tab_length n g : length (tab n g) = n.
Proof. unfold tab. now rewrite length_map, length_seq. Qed.

Lemma tab_nth n g i d : (i < n)%nat -> nth i (tab n g) d = g i.
Proof.
  intros Hi. unfold tab.
  rewrite (nth_indep _ d (g 0%nat)) by now rewrite length_map, length_seq.
  rewrite map_nth, seq_nth; auto.
Qed.

Lemma tab_ext n g h :
  (forall i, (i < n)%nat -> g i = h i) -> tab n g = tab n h.
Proof.
  intros E. unfold tab. apply map_ext_in. intros i Hi.
  apply in_seq in Hi. apply E. lia.
Qed.

Lemma map_tab f n g : map f (tab n g) = tab n (fun i => f (g i)).
Proof. unfold tab. now rewrite map_map. Qed.

Lemma tab_S n g : tab (S n) g = g 0%nat :: tab n (fun i => g (S i)).
Proof.
  unfold tab. simpl. f_equal. rewrite <- seq_shift. now rewrite map_map.
Qed.

Lemma nth_map_lt (f : R -> R) l i d d' :
  (i < length l)%nat -> nth i (map f l) d = f (nth i l d').
Proof.
  intros Hi. rewrite (nth_indep _ d (f d')) by now rewrite length_map.
  apply map_nth.
Qed.

Lemma list_tab (x : vec) : x = tab (length x) (fun i => nth i x 0).
Proof.
  induction x as [|a x IH]; [reflexivity|].
  simpl length. rewrite tab_S. simpl. now rewrite <- IH.
Qed.

Lemma map2_tab f (x y : vec) n :
  length x = n -> length y = n ->
  map2 f x y = tab n (fun i => f (nth i x 0) (nth i y 0)).
Proof.
  revert y n. induction x as [|a x IH]; intros [|b y] n Hx Hy; simpl in *;
    subst n; try discriminate; [reflexivity|].
  rewrite tab_S. simpl. f_equal. apply IH; auto.
Qed.

Lemma bcast2_tab_r f x y n :
  length x = n -> broadcastable y n ->
  bcast2 f x y = Ok (tab n (fun i => f (nth i x 0) (bc y i))).
Proof.
  intros Hx Hy. unfold bcast2.
  destruct (Nat.eqb_spec (length x) (length y)) as [E|E].
  - rewrite (map2_tab f x y n) by congruence.
    f_equal. apply tab_ext. intros i Hi. unfold bc.
    destruct y as [|b [|c y]]; auto.
    simpl in E. rewrite Hx in E. subst n.
    assert (i = 0)%nat by lia. now subst i.
  - destruct Hy as [Hy|Hy]; [congruence|].
    destruct y as [|b [|c y]]; try discriminate.
    assert (Hm : map (fun a => f a b) x
                 = tab n (fun i => f (nth i x 0) (bc [b] i))).
    { rewrite (list_tab x) at 1. rewrite Hx, map_tab. reflexivity. }
    destruct x as [|a [|a' x]]; try (now rewrite Hm).
    now elim E.
Qed.

Lemma bcast2_tab_l f x y n :
  broadcastable x n -> length y = n ->
  bcast2 f x y = Ok (tab n (fun i => f (bc x i) (nth i y 0))).
Proof.
  intros Hx Hy. unfold bcast2.
  destruct (Nat.eqb_spec (length x) (length y)) as [E|E].
  - rewrite (map2_tab f x y n) by congruence.
    f_equal. apply tab_ext. intros i Hi. unfold bc.
    destruct x as [|b [|c x]]; auto.
    simpl in E. rewrite Hy in E. subst n.
    assert (i = 0)%nat by lia. now subst i.
  - destruct Hx as [Hx|Hx]; [congruence|].
    destruct x as [|b [|c x]]; try discriminate.
    simpl. f_equal. rewrite (list_tab y) at 1. rewrite Hy, map_tab.
    reflexivity.
Qed.

Lemma bcast2_inplace_tab f x y n :
  length x = n -> broadcastable y n ->
  bcast2_inplace f x y = Ok (tab n (fun i => f (nth i x 0) (bc y i))).
Proof.
  intros Hx Hy. unfold bcast2_inplace.
  destruct (Nat.eqb_spec (length x) (length y)) as [E|E].
  - rewrite (map2_tab f x y n) by congruence.
    f_equal. apply tab_ext. intros i Hi. unfold bc.
    destruct y as [|b [|c y]]; auto.
    simpl in E. rewrite Hx in E. subst n.
    assert (i = 0)%nat by lia. now subst i.
  - destruct Hy as [Hy|Hy]; [congruence|].
    destruct y as [|b [|c y]]; try discriminate.
    f_equal. rewrite (list_tab x) at 1. rewrite Hx, map_tab. reflexivity.
Qed.

(** ** The hyperbolic tangent *)

Lemma cosh_pos x : 0 < cosh x.
Proof.
  unfold cosh. pose proof (exp_pos x). pose proof (exp_pos (- x)). lra.
Qed.

Lemma tanh_0 : tanh 0 = 0.
Proof. unfold tanh. rewrite sinh_0. unfold Rdiv. apply Rmult_0_l. Qed.

Lemma tanh_bounds x : -1 < tanh x < 1.
Proof.
  pose proof (cosh_pos x) as Hc.
  pose proof (exp_pos x) as Hp. pose proof (exp_pos (- x)) as Hn.
  assert (Hs : - cosh x < sinh x < cosh x) by (unfold sinh, cosh; lra).
  unfold tanh. split.
  - apply Rmult_lt_reg_r with (cosh x); [exact Hc|].
    unfold Rdiv. rewrite Rmult_assoc, Rinv_l by lra. lra.
  - apply Rmult_lt_reg_r with (cosh x); [exact Hc|].
    unfold Rdiv. rewrite Rmult_assoc, Rinv_l by lra. lra.
Qed.

Lemma tanh_pos x : 0 < x -> 0 < tanh x.
Proof.
  intros Hx. unfold tanh. apply Rdiv_lt_0_compat; [|apply cosh_pos].
  unfold sinh. assert (exp (- x) < exp x) by (apply exp_increasing; lra). lra.
Qed.

Lemma tanh_sqr_lt_1 x : 0 < 1 - tanh x ^ 2.
Proof. pose proof (tanh_bounds x). nra. Qed.

(** ** The policy network: what [forward] and [sample] compute *)

Lemma map2_length {A B C} (f : A -> B -> C) x y :
  length x = length y -> length (map2 f x y) = length x.
Proof.
  revert y. induction x as [|a x IH]; intros [|b y] H; simpl in *;
    try discriminate; auto.
Qed.

Lemma linear_total n_in n_out l x :
  Linear_shape n_in n_out l -> length x = n_in ->
  exists y, linear l x = Ok y /\ length y = n_out.
Proof.
  intros (Hw & Hb & Hr) Hx. unfold linear.
  assert (E1 : forallb (fun row => (length row =? length x)%nat) (weight l) = true).
  { apply forallb_forall. intros row Hin.
    rewrite Forall_forall in Hr. apply Nat.eqb_eq. rewrite Hx. now apply Hr. }
  assert (E2 : (length (weight l) =? length (bias l))%nat = true)
    by (apply Nat.eqb_eq; congruence).
  rewrite E1, E2. simpl. eexists. split; [reflexivity|].
  rewrite map2_length; [exact Hw | exact (eq_trans Hw (eq_sym Hb))].
Qed.

Lemma forward_total n_inputs n_actions hidden_dim a state :
  Actor_shape n_inputs n_actions hidden_dim a -> length state = n_inputs ->
  exists mean log_std,
    forward a state = Ok (mean, log_std) /\
    length mean = n_actions /\ length log_std = n_actions.
Proof.
  intros (H1 & H2 & Hm & Hs & _) Hx. unfold forward.
  destruct (linear_total _ _ _ _ H1 Hx) as (h1 & E1 & L1). rewrite E1. simpl.
  assert (Lr1 : length (relu h1) = hidden_dim)
    by (unfold relu; now rewrite length_map).
  destruct (linear_total _ _ _ _ H2 Lr1) as (h2 & E2 & L2). rewrite E2. simpl.
  assert (Lr2 : length (relu h2) = hidden_dim)
    by (unfold relu; now rewrite length_map).
  destruct (linear_total _ _ _ _ Hm Lr2) as (m & Em & Lm). rewrite Em. simpl.
  destruct (linear_total _ _ _ _ Hs Lr2) as (ls & Es & Ls). rewrite Es. simpl.
  exists m, (clamp LOG_SIG_MIN LOG_SIG_MAX ls). split; [reflexivity|].
  split; [exact Lm|]. unfold clamp. now rewrite length_map.
Qed.

(** [log_std] leaves [forward] clamped to [LOG_SIG_MIN, LOG_SIG_MAX]. *)
Lemma forward_log_std_clamped a state mean log_std :
  forward a state = Ok (mean, log_std) ->
  Forall (fun v => LOG_SIG_MIN <= v <= LOG_SIG_MAX) log_std.
Proof.
  unfold forward. intros H.
  destruct (linear (linear1 a) state) as [h1|]; simpl in H; [|discriminate].
  destruct (linear (linear2 a) (relu h1)) as [h2|]; simpl in H; [|discriminate].
  destruct (linear (mean_linear a) (relu h2)) as [m|]; simpl in H; [|discriminate].
  destruct (linear (log_std_linear a) (relu h2)) as [ls|]; simpl in H;
    [|discriminate].
  inversion H; subst. unfold clamp. apply Forall_forall. intros v Hin.
  apply in_map_iff in Hin. destruct Hin as (u & <- & _).
  unfold LOG_SIG_MIN, LOG_SIG_MAX.
  unfold Rmin, Rmax. destruct (Rle_dec u (-20)); destruct (Rle_dec _ 2); lra.
Qed.

Lemma bcast2_tab_eq f x y n :
  length x = n -> length y = n ->
  bcast2 f x y = Ok (tab n (fun i => f (nth i x 0) (nth i y 0))).
Proof.
  intros Hx Hy. unfold bcast2.
  replace (length x =? length y)%nat with true
    by (symmetry; apply Nat.eqb_eq; congruence).
  f_equal. now apply map2_tab.
Qed.

(** The three results of [sample], entry by entry, on a well-shaped row. *)
Lemma sample_spec a state eps mean log_std n :
  forward a state = Ok (mean, log_std) ->
  length mean = n -> length log_std = n -> length eps = n ->
  broadcastable (action_scale a) n -> broadcastable (action_bias a) n ->
  sample a state eps =
  Ok (tab n (fun i => tanh (raw_sample mean log_std eps i)
                      * bc (action_scale a) i + bc (action_bias a) i),
      vsum (tab n (fun i =>
        - ((raw_sample mean log_std eps i - nth i mean 0) ^ 2)
          / (2 * exp (nth i log_std 0) ^ 2)
        - ln (exp (nth i log_std 0)) - ln (sqrt (2 * PI))
        - ln (bc (action_scale a) i
              * (1 - tanh (raw_sample mean log_std eps i) ^ 2) + epsilon))),
      tab n (fun i => tanh (nth i mean 0)
                      * bc (action_scale a) i + bc (action_bias a) i)).
Proof.
  intros Hf Hm Hl He Hs Hb. unfold sample. rewrite Hf. cbn [rbind].
  unfold Normal_rsample.
  rewrite (bcast2_tab_eq Rmult eps (map exp log_std) n)
    by (rewrite ?length_map; auto).
  cbn [rbind].
  rewrite (bcast2_tab_eq Rplus mean _ n) by (rewrite ?tab_length; auto).
  cbn [rbind]. rewrite !map_tab.
  rewrite (bcast2_tab_r Rmult _ (action_scale a) n)
    by (rewrite ?tab_length; auto).
  cbn [rbind].
  rewrite (bcast2_tab_r Rplus _ (action_bias a) n)
    by (rewrite ?tab_length; auto).
  cbn [rbind]. unfold Normal_log_prob.
  rewrite (bcast2_tab_eq Rminus _ mean n) by (rewrite ?tab_length; auto).
  cbn [rbind].
  rewrite (bcast2_tab_eq _ _ (map (fun s => s ^ 2) (map exp log_std)) n)
    by (rewrite ?tab_length, ?length_map; auto).
  cbn [rbind].
  rewrite (bcast2_tab_eq Rminus _ (map ln (map exp log_std)) n)
    by (rewrite ?tab_length, ?length_map; auto).
  cbn [rbind]. rewrite !map_tab.
  rewrite (bcast2_tab_l Rmult (action_scale a) _ n)
    by (rewrite ?tab_length; auto).
  cbn [rbind]. rewrite !map_tab.
  rewrite (bcast2_inplace_tab Rminus _ _ n)
    by (rewrite ?tab_length; auto; left; apply tab_length).
  cbn [rbind].
  rewrite (bcast2_tab_r Rmult (map tanh mean) (action_scale a) n)
    by (rewrite ?length_map; auto).
  cbn [rbind].
  rewrite (bcast2_tab_r Rplus _ (action_bias a) n)
    by (rewrite ?tab_length; auto).
  cbn [rbind].
  assert (Hbc : forall g i, (i < n)%nat -> bc (tab n g) i = g i).
  { intros g i Hi. unfold bc.
    destruct n as [|[|n]]; [lia| |].
    - assert (i = 0)%nat by lia. subst i. reflexivity.
    - rewrite (tab_S (S n)), (tab_S n).
      destruct i as [|[|i]]; simpl; auto.
      rewrite tab_nth by lia. reflexivity. }
  apply f_equal.
  apply f_equal2; [apply f_equal2; [|apply f_equal]|];
    apply tab_ext; intros i Hi; unfold raw_sample;
    repeat first [ rewrite tab_nth by assumption
                 | rewrite Hbc by assumption
                 | rewrite (nth_map_lt _ _ i 0 0)
                     by (rewrite ?length_map; lia) ];
    reflexivity.
Qed.

Lemma bcast2_scalar_r f y b :
  bcast2 f y [b] = Ok (map (fun a => f a b) y).
Proof.
  unfold bcast2. destruct y as [|a [|a' y]]; reflexivity.
Qed.

(** On the concrete actor every layer outputs zero. *)
Lemma forward_actor0 sp s : forward (actor0 sp) [s] = Ok ([0], [0]).
Proof.
  unfold forward, actor0, Actor_init, weights_init_, linear, relu, clamp, dot,
    vsum, LOG_SIG_MIN, LOG_SIG_MAX. simpl.
  assert (E1 : Rmax 0 (0 * s + 0 + 0) = 0)
    by (replace (0 * s + 0 + 0) with 0 by ring; apply Rmax_left; lra).
  rewrite E1.
  assert (E2 : Rmax 0 (0 * 0 + 0 + 0) = 0)
    by (replace (0 * 0 + 0 + 0) with 0 by ring; apply Rmax_left; lra).
  rewrite E2.
  replace (0 * 0 + 0 + 0) with 0 by ring.
  rewrite (Rmax_left 0 (-20)) by lra. rewrite (Rmin_left 0 2) by lra.
  reflexivity.
Qed.

Lemma actor0_shape sp :
  length (low sp) = 1%nat -> length (high sp) = 1%nat ->
  Actor_shape 1 1 1 (actor0 (Some sp)).
Proof.
  intros Hl Hh. destruct sp as [[|l [|? ?]] [|h [|? ?]]]; try discriminate.
  unfold Actor_shape, Linear_shape, broadcastable. simpl.
  repeat split; auto.
Qed.

(** ** Claims about model.py *)

(** C9: an actor whose rescaling tensors are those that [Actor.__init__]
    builds for [action_space = None] has [action_scale = 1] and
    [action_bias = 0]; every action that [sample] returns is then the
    hyperbolic tangent of the raw Gaussian sample and lies in [-1, 1]
    componentwise. *)
Theorem sample_without_action_space
    (w1 w2 wm ws : matrix) (a : Actor) (state eps action mean_action : vec)
    (log_prob : R) :
  action_scale a = action_scale (Actor_init w1 w2 wm ws None) ->
  action_bias a = action_bias (Actor_init w1 w2 wm ws None) ->
  sample a state eps = Ok (action, log_prob, mean_action) ->
  action_scale a = [1] /\ action_bias a = [0] /\
  (exists mean log_std x_t,
      forward a state = Ok (mean, log_std) /\
      Normal_rsample mean (map exp log_std) eps = Ok x_t /\
      action = map tanh x_t) /\
  Forall (fun v => -1 <= v <= 1) action.
Proof.
  simpl. intros Hs Hb H. split; [exact Hs|]. split; [exact Hb|].
  unfold sample in H. rewrite Hs, Hb in H.
  destruct (forward a state) as [[mean log_std]|] eqn:Hf;
    cbn [rbind] in H; [|discriminate].
  destruct (Normal_rsample mean (map exp log_std) eps) as [x_t|] eqn:Hx;
    cbn [rbind] in H; [|discriminate].
  do 2 (rewrite bcast2_scalar_r in H; cbn [rbind] in H).
  destruct (Normal_log_prob _ _ _); cbn [rbind] in H; [|discriminate].
  destruct (bcast2 _ _ _); cbn [rbind] in H; [|discriminate].
  destruct (bcast2_inplace _ _ _); cbn [rbind] in H; [|discriminate].
  do 2 (rewrite bcast2_scalar_r in H; cbn [rbind] in H).
  inversion H; subst; clear H.
  assert (E : map (fun a0 => a0 + 0) (map (fun a0 => a0 * 1) (map tanh x_t))
              = map tanh x_t).
  { rewrite map_map. rewrite <- (map_id (map tanh x_t)) at 2.
    apply map_ext. intros v. ring. }
  rewrite E. split.
  - exists mean, log_std, x_t. auto.
  - apply Forall_forall. intros v Hin. apply in_map_iff in Hin.
    destruct Hin as (x & <- & _). pose proof (tanh_bounds x). lra.
Qed.

Lemma sample_actor0 sp e :
  broadcastable (action_scale (actor0 sp)) 1 ->
  broadcastable (action_bias (actor0 sp)) 1 ->
  sample (actor0 sp) [0] [e] =
  Ok (tab 1 (fun i => tanh (raw_sample [0] [0] [e] i)
                      * bc (action_scale (actor0 sp)) i
                      + bc (action_bias (actor0 sp)) i),
      vsum (tab 1 (fun i =>
        - ((raw_sample [0] [0] [e] i - nth i [0] 0) ^ 2)
          / (2 * exp (nth i [0] 0) ^ 2)
        - ln (exp (nth i [0] 0)) - ln (sqrt (2 * PI))
        - ln (bc (action_scale (actor0 sp)) i
              * (1 - tanh (raw_sample [0] [0] [e] i) ^ 2) + epsilon))),
      tab 1 (fun i => tanh (nth i [0] 0)
                      * bc (action_scale (actor0 sp)) i
                      + bc (action_bias (actor0 sp)) i)).
Proof.
  intros Hs Hb.
  apply (sample_spec (actor0 sp) [0] [e] [0] [0] 1);
    auto using forward_actor0.
Qed.

Lemma sample_without_action_space_witness :
  action_scale (actor0 None) = [1] /\
  Forall (fun v => -1 <= v <= 1)
    (tab 1 (fun i => tanh (raw_sample [0] [0] [1] i)
                     * bc (action_scale (actor0 None)) i
                     + bc (action_bias (actor0 None)) i)).
Proof.
  pose proof (sample_without_action_space [[0]] [[0]] [[0]] [[0]]
                (actor0 None) [0] [1] _ _ _ eq_refl eq_refl
                (sample_actor0 None 1 (or_introl eq_refl) (or_introl eq_refl)))
    as (Hs & _ & _ & Hr).
  exact (conj Hs Hr).
Defined.

(** The logarithm of the normal density is what [Normal.log_prob]
    computes. *)
Lemma ln_gaussian_density m s x :
  0 < s ->
  ln (gaussian_density m s x)
  = - ((x - m) ^ 2) / (2 * s ^ 2) - ln s - ln (sqrt (2 * PI)).
Proof.
  intros Hs. unfold gaussian_density.
  assert (Hq : 0 < sqrt (2 * PI))
    by (apply sqrt_lt_R0; pose proof PI_RGT_0; lra).
  rewrite ln_mult;
    [|apply Rinv_0_lt_compat, Rmult_lt_0_compat; assumption|apply exp_pos].
  rewrite ln_Rinv by (apply Rmult_lt_0_compat; assumption).
  rewrite ln_mult by assumption. rewrite ln_exp. field. lra.
Qed.

Lemma gaussian_density_pos m s x : 0 < s -> 0 < gaussian_density m s x.
Proof.
  intros Hs. unfold gaussian_density.
  apply Rmult_lt_0_compat; [|apply exp_pos].
  apply Rinv_0_lt_compat, Rmult_lt_0_compat; [assumption|].
  apply sqrt_lt_R0. pose proof PI_RGT_0. lra.
Qed.

Lemma jacobian_pos sc x : 0 <= sc -> 0 < sc * (1 - tanh x ^ 2) + epsilon.
Proof.
  intros Hs. pose proof (tanh_sqr_lt_1 x). unfold epsilon.
  assert (0 <= sc * (1 - tanh x ^ 2)) by (apply Rmult_le_pos; lra). lra.
Qed.

(** C5: on a well-shaped actor whose action scale is not negative, the
    [log_prob] that [sample] returns is the sum over the action dimensions
    of the logarithm of the density of [Normal(mean, std)] at the raw
    sample [x_t], minus [log(action_scale * (1 - tanh(x_t)^2) + epsilon)]
    with [epsilon = 1e-6]; every logarithm is taken of a positive number
    and every deviation is positive, so the value is finite. *)
Theorem sample_log_prob
    (n_inputs n_actions hidden_dim : nat) (a : Actor) (state eps : vec) :
  Actor_shape n_inputs n_actions hidden_dim a ->
  length state = n_inputs -> length eps = n_actions ->
  (forall i, 0 <= bc (action_scale a) i) ->
  exists mean log_std action log_prob mean_action,
    forward a state = Ok (mean, log_std) /\
    sample a state eps = Ok (action, log_prob, mean_action) /\
    log_prob =
      vsum (tab n_actions (fun i =>
        ln (gaussian_density (nth i mean 0) (exp (nth i log_std 0))
                             (raw_sample mean log_std eps i))
        - ln (bc (action_scale a) i
              * (1 - tanh (raw_sample mean log_std eps i) ^ 2) + epsilon))) /\
    epsilon = 1 / 1000000 /\
    forall i,
      0 < exp (nth i log_std 0) /\
      0 < gaussian_density (nth i mean 0) (exp (nth i log_std 0))
                           (raw_sample mean log_std eps i) /\
      0 < bc (action_scale a) i
          * (1 - tanh (raw_sample mean log_std eps i) ^ 2) + epsilon.
Proof.
  intros Hshape Hst He Hsc.
  destruct (forward_total _ _ _ _ _ Hshape Hst) as (mean & log_std & Hf & Hm & Hl).
  destruct Hshape as (_ & _ & _ & _ & Hbs & Hbb).
  exists mean, log_std. do 3 eexists.
  split; [exact Hf|].
  split; [apply (sample_spec a state eps mean log_std n_actions); auto|].
  split; [|split; [reflexivity|]].
  - f_equal. apply tab_ext. intros i Hi.
    rewrite ln_gaussian_density by apply exp_pos. reflexivity.
  - intros i. split; [apply exp_pos|]. split.
    + apply gaussian_density_pos, exp_pos.
    + apply jacobian_pos, Hsc.
Qed.

Lemma sample_log_prob_witness :
  Actor_shape 1 1 1 (actor0 (Some unit_box)) /\
  exists mean log_std action log_prob mean_action,
    forward (actor0 (Some unit_box)) [0] = Ok (mean, log_std) /\
    sample (actor0 (Some unit_box)) [0] [1]
      = Ok (action, log_prob, mean_action) /\
    log_prob =
      vsum (tab 1 (fun i =>
        ln (gaussian_density (nth i mean 0) (exp (nth i log_std 0))
                             (raw_sample mean log_std [1] i))
        - ln (bc (action_scale (actor0 (Some unit_box))) i
              * (1 - tanh (raw_sample mean log_std [1] i) ^ 2) + epsilon))) /\
    epsilon = 1 / 1000000 /\
    forall i,
      0 < exp (nth i log_std 0) /\
      0 < gaussian_density (nth i mean 0) (exp (nth i log_std 0))
                           (raw_sample mean log_std [1] i) /\
      0 < bc (action_scale (actor0 (Some unit_box))) i
          * (1 - tanh (raw_sample mean log_std [1] i) ^ 2) + epsilon.
Proof.
  split; [exact (actor0_shape unit_box eq_refl eq_refl)|].
  apply (sample_log_prob 1 1 1 (actor0 (Some unit_box)) [0] [1]
           (actor0_shape unit_box eq_refl eq_refl) eq_refl eq_refl).
  intros i. simpl. lra.
Defined.

(** C1, at the action space [low = -1], [high = 1] with the noise [1] on the
    zero actor: [action_bias] is computed as [(high - low) / 2], the same
    expression as [action_scale], so the sampled action is
    [tanh(1) * 1 + 1], above [high]. *)
Theorem sample_action_above_high :
  valid_space unit_box /\
  exists action log_prob mean_action,
    sample (actor0 (Some unit_box)) [0] [1]
      = Ok (action, log_prob, mean_action) /\
    nth 0 (high unit_box) 0 < nth 0 action 0.
Proof.
  split.
  - split; [reflexivity|]. simpl. intros [|[|i]] Hi; simpl; lra.
  - do 3 eexists. split.
    + apply sample_actor0; left; reflexivity.
    + simpl. unfold raw_sample. simpl.
      assert (H : 0 < tanh (0 + 1 * exp 0))
        by (apply tanh_pos; pose proof (exp_pos 0); lra).
      lra.
Qed.

Lemma bc_nth p i : (i < length p)%nat -> bc p i = nth i p 0.
Proof.
  intros Hi. unfold bc. destruct p as [|b [|c p]]; auto.
  simpl in Hi. assert (i = 0)%nat by lia. now subst i.
Qed.

Lemma bc_nonneg p : Forall (fun v => 0 <= v) p -> forall i, 0 <= bc p i.
Proof.
  intros Hp i. rewrite Forall_forall in Hp. unfold bc.
  destruct p as [|b [|c p]].
  - destruct i; simpl; lra.
  - apply Hp. now left.
  - destruct (nth_in_or_default i (b :: c :: p) 0) as [Hin|E];
      [auto|rewrite E; lra].
Qed.

(** The action scale that [Actor.__init__] computes is not negative: it is
    1 without an action space and [(high - low) / 2] for valid bounds. *)
Lemma Actor_init_scale_nonneg w1 w2 wm ws action_space :
  match action_space with
  | None => True
  | Some sp => valid_space sp
  end ->
  forall i, 0 <= bc (action_scale (Actor_init w1 w2 wm ws action_space)) i.
Proof.
  intros Hv. apply bc_nonneg. destruct action_space as [sp|]; simpl.
  - destruct Hv as [Hlen Hle].
    rewrite (map2_tab _ (high sp) (low sp) (length (low sp))) by auto.
    apply Forall_forall. intros v Hin. unfold tab in Hin.
    apply in_map_iff in Hin. destruct Hin as (j & <- & Hj).
    apply in_seq in Hj. specialize (Hle j ltac:(lia)). lra.
  - constructor; [lra|constructor].
Qed.

(** What the rescale of [sample] does guarantee with the tensors that
    [Actor.__init__] computes from valid bounds: every action entry lies in
    [0, high - low]. *)
Lemma sample_action_range n_inputs n_actions hidden_dim a sp state eps :
  Actor_shape n_inputs n_actions hidden_dim a ->
  length state = n_inputs -> length eps = n_actions ->
  valid_space sp -> length (low sp) = n_actions ->
  action_scale a = action_scale (Actor_init [] [] [] [] (Some sp)) ->
  action_bias a = action_bias (Actor_init [] [] [] [] (Some sp)) ->
  exists action log_prob mean_action,
    sample a state eps = Ok (action, log_prob, mean_action) /\
    forall i, (i < n_actions)%nat ->
      0 <= nth i action 0 <= nth i (high sp) 0 - nth i (low sp) 0.
Proof.
  intros Hshape Hst He [Hlen Hle] Hn Hs Hb.
  destruct (forward_total _ _ _ _ _ Hshape Hst) as (mean & log_std & Hf & Hm & Hl).
  pose proof Hshape as (_ & _ & _ & _ & Hbs & Hbb).
  do 3 eexists.
  split; [apply (sample_spec a state eps mean log_std n_actions); auto|].
  intros i Hi. rewrite tab_nth by exact Hi.
  assert (E : forall p, p = map2 (fun h l => (h - l) / 2) (high sp) (low sp) ->
                        bc p i = (nth i (high sp) 0 - nth i (low sp) 0) / 2).
  { intros p ->.
    rewrite (map2_tab _ (high sp) (low sp) n_actions) by congruence.
    rewrite bc_nth by (now rewrite tab_length).
    now rewrite tab_nth. }
  rewrite (E _ Hs), (E _ Hb).
  pose proof (tanh_bounds (raw_sample mean log_std eps i)) as Ht.
  specialize (Hle i ltac:(lia)). nra.
Qed.

(** ** Computations that keep a relation between worlds *)

Section Preservation.

Context {W : Type} (Rw : W -> W -> Prop).
Hypothesis Rw_refl : forall w, Rw w w.
Hypothesis Rw_trans : forall w1 w2 w3, Rw w1 w2 -> Rw w2 w3 -> Rw w1 w3.

Lemma preserves_ret {A} (a : A) : preserves Rw (ret a).
Proof. intros w. apply Rw_refl. Qed.

Lemma preserves_raise {A} e : preserves Rw (@raise W A e).
Proof. intros w. apply Rw_refl. Qed.

Lemma preserves_lift {A} (r : result A) : preserves Rw (lift r).
Proof. intros w. apply Rw_refl. Qed.

Lemma preserves_gets {A} (f : W -> A) : preserves Rw (gets f).
Proof. intros w. apply Rw_refl. Qed.

Lemma preserves_bind {A B} (c : M W A) (k : A -> M W B) :
  preserves Rw c -> (forall a, preserves Rw (k a)) -> preserves Rw (bind c k).
Proof.
  intros Hc Hk w. unfold bind. specialize (Hc w).
  destruct (c w) as [[a|e] w']; simpl in *; [|exact Hc].
  eapply Rw_trans; [exact Hc|apply Hk].
Qed.

Lemma preserves_mapM {A B} (f : A -> M W B) l :
  (forall a, preserves Rw (f a)) -> preserves Rw (mapM f l).
Proof.
  intros Hf. induction l as [|a l IH]; simpl.
  - apply preserves_ret.
  - apply preserves_bind; [apply Hf|]. intros b.
    apply preserves_bind; [exact IH|]. intros bs. apply preserves_ret.
Qed.

Lemma preserves_for_range {A} n start (body : Z -> A -> M W A) acc :
  (forall i x, preserves Rw (body i x)) -> preserves Rw (for_range n start body acc).
Proof.
  intros Hb. revert start acc. induction n as [|n IH]; intros start acc; simpl.
  - apply preserves_ret.
  - apply preserves_bind; [apply Hb|]. intros x. apply IH.
Qed.

End Preservation.

(** Decomposes a goal [preserves Rw c] along the binds of [c], given the
    proofs that [Rw] is reflexive and transitive. *)
Ltac preserve_with Hr Ht :=
  repeat first
    [ apply preserves_ret; exact Hr
    | apply preserves_raise; exact Hr
    | apply preserves_lift; exact Hr
    | apply preserves_gets; exact Hr
    | apply preserves_bind; [exact Ht | | intros ?]
    | apply preserves_mapM; [exact Hr | exact Ht | intros ?]
    | apply preserves_for_range; [exact Hr | exact Ht | intros ? ?] ].

(** ** The agent: lemmas and claims *)

Section AgentProofs.

Context {CR : Critic} {CO : Optimizer CriticNet} {AO : Optimizer Actor}
        {RB : ReplayBuffer} {EV : Environment}.

Local Open Scope agent_scope.

Lemma only_cursor_refl w : only_cursor w w.
Proof. destruct w; reflexivity. Qed.

Lemma only_cursor_trans w1 w2 w3 :
  only_cursor w1 w2 -> only_cursor w2 w3 -> only_cursor w1 w3.
Proof.
  unfold only_cursor. intros H12 H23. rewrite H23, H12 at 1. reflexivity.
Qed.

Lemma draw_only_cursor k : preserves only_cursor (draw k).
Proof. intros w. reflexivity. Qed.

Lemma rsample_noise_only_cursor states :
  preserves only_cursor (rsample_noise states).
Proof.
  unfold rsample_noise. preserve_with only_cursor_refl only_cursor_trans.
  apply draw_only_cursor.
Qed.

Lemma Actor_sample_only_cursor states :
  preserves only_cursor (Actor_sample states).
Proof.
  unfold Actor_sample. preserve_with only_cursor_refl only_cursor_trans.
  apply draw_only_cursor.
Qed.

Lemma select_action_only_cursor state evaluate :
  preserves only_cursor (select_action state evaluate).
Proof.
  unfold select_action. preserve_with only_cursor_refl only_cursor_trans.
  - apply draw_only_cursor.
  - destruct (if Bool.eqb evaluate false then _ else _);
      preserve_with only_cursor_refl only_cursor_trans.
Qed.

(** C10: whatever the state and the flag, and whether it returns or raises,
    [select_action] leaves the agent (the actor, the critic, the target
    critic, the optimizers) and the replay buffer as they were; of the
    world, only the position of the noise generator moves. *)
Theorem select_action_frame (state : vec) (evaluate : bool) (w : World) :
  let w' := snd (select_action state evaluate w) in
  actor (self w') = actor (self w) /\
  critic (self w') = critic (self w) /\
  critic_target (self w') = critic_target (self w) /\
  memory w' = memory w /\
  w' = set_cursor (cursor w') w.
Proof.
  pose proof (select_action_only_cursor state evaluate w) as H.
  simpl. unfold only_cursor in H.
  repeat split; try exact H; rewrite H; reflexivity.
Qed.

(** *** [Actor.sample] on a batch *)

Lemma mapR_forward_total n_inputs n_actions hidden_dim a states :
  Actor_shape n_inputs n_actions hidden_dim a ->
  Forall (fun s => length s = n_inputs) states ->
  exists fw,
    mapR (forward a) states = Ok fw /\ length fw = length states /\
    Forall (fun ml : vec * vec =>
              length (fst ml) = n_actions /\ length (snd ml) = n_actions) fw.
Proof.
  intros Ha Hs. induction Hs as [|s states Hlen _ IH]; simpl.
  - exists []. auto.
  - destruct (forward_total _ _ _ _ _ Ha Hlen) as (m & ls & Hf & Hm & Hl).
    destruct IH as (fw & E & Elen & Hfw).
    rewrite Hf, E. simpl. exists ((m, ls) :: fw).
    split; [reflexivity|]. split; [simpl; congruence|].
    constructor; auto.
Qed.

Lemma mapM_draw n fw w :
  Forall (fun ml : vec * vec =>
            length (fst ml) = n /\ length (snd ml) = n) fw ->
  mapM (fun ml : vec * vec =>
          k <- lift (bshape (length (fst ml)) (length (snd ml))) ;; draw k)
       fw w
  = (Ok (batch_noise (noise w) (cursor w) n (length fw)),
     set_cursor (cursor w + length fw * n) w).
Proof.
  intros Hfw. revert w. induction Hfw as [|ml fw [Hm Hl] _ IH]; intros w.
  - simpl. unfold ret, batch_noise. simpl. f_equal.
    destruct w; unfold set_cursor; simpl. f_equal. lia.
  - cbn [mapM]. unfold bind at 1. unfold bind at 1.
    unfold lift at 1, bshape. rewrite Hm, Hl, Nat.eqb_refl.
    unfold draw at 1. unfold bind at 1. rewrite IH. unfold ret.
    unfold batch_noise. cbn [length seq map]. f_equal.
    + f_equal. f_equal.
      * do 2 f_equal. simpl. lia.
      * rewrite <- seq_shift, map_map. apply map_ext. intros j.
        unfold set_cursor; simpl. do 2 f_equal. lia.
    + unfold set_cursor; simpl. f_equal. lia.
Qed.

Lemma rsample_noise_spec n_inputs n_actions hidden_dim states w :
  Actor_shape n_inputs n_actions hidden_dim (actor (self w)) ->
  Forall (fun s => length s = n_inputs) states ->
  rsample_noise states w
  = (Ok (batch_noise (noise w) (cursor w) n_actions (length states)),
     set_cursor (cursor w + length states * n_actions) w).
Proof.
  intros Ha Hs.
  destruct (mapR_forward_total _ _ _ _ _ Ha Hs) as (fw & E & Elen & Hfw).
  unfold rsample_noise. unfold bind at 1, gets at 1.
  unfold bind at 1, lift at 1. rewrite E.
  rewrite (mapM_draw n_actions fw w Hfw). now rewrite Elen.
Qed.

Lemma batch_noise_length noise_ c n B : length (batch_noise noise_ c n B) = B.
Proof. unfold batch_noise. now rewrite length_map, length_seq. Qed.

Lemma batch_noise_rows noise_ c n B :
  Forall (fun e => length e = n) (batch_noise noise_ c n B).
Proof.
  unfold batch_noise. apply Forall_forall. intros e Hin.
  apply in_map_iff in Hin. destruct Hin as (j & <- & _).
  now rewrite length_map, length_seq.
Qed.

Lemma sample_rows_total n_inputs n_actions hidden_dim a states eps :
  Actor_shape n_inputs n_actions hidden_dim a ->
  Forall (fun s => length s = n_inputs) states ->
  Forall (fun e => length e = n_actions) eps ->
  length eps = length states ->
  exists out, sample_rows a states eps = Ok out /\ length out = length states.
Proof.
  intros Ha Hs. revert eps.
  induction Hs as [|s states Hlen _ IH]; intros [|e eps] He Hl;
    simpl in Hl; try discriminate.
  - exists []. auto.
  - apply Forall_cons_iff in He. destruct He as [He1 He2].
    destruct (forward_total _ _ _ _ _ Ha Hlen) as (m & ls & Hf & Hm & Hls).
    pose proof Ha as (H1 & H2 & H3 & H4 & Hbs & Hbb).
    pose proof (sample_spec a s e m ls n_actions Hf Hm Hls He1 Hbs Hbb) as Hsp.
    destruct (IH eps He2) as (out & E & Elen); [congruence|].
    cbn [sample_rows]. rewrite Hsp, E. cbn [rbind].
    eexists. split; [reflexivity|]. simpl. congruence.
Qed.

Lemma Actor_sample_spec n_inputs n_actions hidden_dim states w :
  Actor_shape n_inputs n_actions hidden_dim (actor (self w)) ->
  Forall (fun s => length s = n_inputs) states ->
  exists out,
    sample_rows (actor (self w)) states
      (batch_noise (noise w) (cursor w) n_actions (length states)) = Ok out /\
    length out = length states /\
    Actor_sample states w
    = (Ok out, set_cursor (cursor w + length states * n_actions) w).
Proof.
  intros Ha Hs.
  destruct (sample_rows_total _ _ _ _ states
              (batch_noise (noise w) (cursor w) n_actions (length states))
              Ha Hs (batch_noise_rows _ _ _ _) (batch_noise_length _ _ _ _))
    as (out & E & Elen).
  exists out. split; [exact E|]. split; [exact Elen|].
  unfold Actor_sample. unfold bind at 1.
  rewrite (rsample_noise_spec _ _ _ _ _ Ha Hs).
  unfold bind, gets, lift. cbn [self set_cursor]. now rewrite E.
Qed.

(** *** [select_action] *)

Lemma select_action_value n_inputs n_actions hidden_dim (state : vec)
    evaluate w mean log_std :
  Actor_shape n_inputs n_actions hidden_dim (actor (self w)) ->
  length state = n_inputs ->
  forward (actor (self w)) state = Ok (mean, log_std) ->
  select_action state evaluate w
  = (Ok (tab n_actions (fun i =>
           tanh (if evaluate then nth i mean 0
                 else raw_sample mean log_std
                        (map (noise w) (seq (cursor w) n_actions)) i)
           * bc (action_scale (actor (self w))) i
           + bc (action_bias (actor (self w))) i)),
     set_cursor (cursor w + n_actions) w).
Proof.
  intros Ha Hs Hf.
  destruct (forward_total _ _ _ _ _ Ha Hs) as (m & ls & Hf' & Hm & Hl).
  rewrite Hf in Hf'. inversion Hf'; subst m ls; clear Hf'.
  assert (Hst : Forall (fun s : vec => length s = n_inputs)
                       (state :: nil : list vec))
    by (constructor; auto).
  destruct (Actor_sample_spec _ _ _ _ _ Ha Hst) as (out & E & _ & HA).
  pose proof Ha as (_ & _ & _ & _ & Hbs & Hbb).
  unfold batch_noise in E. cbn [length seq map sample_rows] in E.
  rewrite Nat.mul_0_l, Nat.add_0_r in E.
  rewrite (sample_spec _ state _ mean log_std n_actions Hf Hm Hl) in E;
    [|now rewrite length_map, length_seq|exact Hbs|exact Hbb].
  cbn [rbind] in E. inversion E; subst out; clear E.
  unfold select_action. cbv zeta. unfold bind.
  rewrite HA. cbn [length].
  rewrite Nat.mul_1_l. destruct evaluate; reflexivity.
Qed.

(** C8: on a well-shaped actor and state, [select_action] with
    [evaluate = True] returns the mean action [tanh(mean) * action_scale +
    action_bias], which depends on the state and the actor only: any two
    worlds with the same actor give the same vector.  With
    [evaluate = False] it returns the reparameterized action built from the
    noise at the generator's position.  The result is a plain vector of
    numbers. *)
Theorem select_action_evaluate
    (n_inputs n_actions hidden_dim : nat) (state : vec) (w : World) :
  Actor_shape n_inputs n_actions hidden_dim (actor (self w)) ->
  length state = n_inputs ->
  exists mean log_std,
    forward (actor (self w)) state = Ok (mean, log_std) /\
    fst (select_action state true w)
    = Ok (tab n_actions (fun i =>
            tanh (nth i mean 0) * bc (action_scale (actor (self w))) i
            + bc (action_bias (actor (self w))) i)) /\
    fst (select_action state false w)
    = Ok (tab n_actions (fun i =>
            tanh (raw_sample mean log_std
                    (map (noise w) (seq (cursor w) n_actions)) i)
            * bc (action_scale (actor (self w))) i
            + bc (action_bias (actor (self w))) i)) /\
    forall w2 : World,
      actor (self w2) = actor (self w) ->
      fst (select_action state true w2) = fst (select_action state true w).
Proof.
  intros Ha Hs.
  destruct (forward_total _ _ _ _ _ Ha Hs) as (mean & log_std & Hf & _ & _).
  exists mean, log_std. split; [exact Hf|].
  split; [|split].
  - now rewrite (select_action_value _ _ _ _ true w mean log_std Ha Hs Hf).
  - now rewrite (select_action_value _ _ _ _ false w mean log_std Ha Hs Hf).
  - intros w2 E.
    rewrite (select_action_value _ _ _ _ true w mean log_std Ha Hs Hf).
    rewrite <- E in Ha, Hf.
    rewrite (select_action_value _ _ _ _ true w2 mean log_std Ha Hs Hf).
    now rewrite E.
Qed.

(** *** The TD target *)

Lemma map2_length_min {A B C} (f : A -> B -> C) x y :
  length (map2 f x y) = Nat.min (length x) (length y).
Proof.
  revert y. induction x as [|a x IH]; intros [|b y]; simpl; auto.
Qed.

Lemma bcast2_same f x y :
  length x = length y -> bcast2 f x y = Ok (map2 f x y).
Proof.
  intros E. unfold bcast2. now rewrite (proj2 (Nat.eqb_eq _ _) E).
Qed.

Lemma nth_error_map2 {A B C} (f : A -> B -> C) xs ys k x y :
  nth_error xs k = Some x -> nth_error ys k = Some y ->
  nth_error (map2 f xs ys) k = Some (f x y).
Proof.
  revert ys k. induction xs as [|a xs IH]; intros [|b ys] [|k] Hx Hy;
    simpl in *; try discriminate.
  - now inversion Hx; inversion Hy.
  - now apply IH.
Qed.

(** The tensor operations of lines 49-50 compute [td_target_row] in every
    row. *)
Lemma td_target_rows (ag : Agent) (batch : list Transition)
    (out : list (vec * R * vec)) :
  length out = length batch ->
  (let q := map2 (critic_forward (critic_target ag))
                 (map t_next_state batch)
                 (map (fun r : vec * R * vec => fst (fst r)) out) in
   m <-! bcast2 Rmin (map fst q) (map snd q) ;
   min_qf_next_target <-!
     bcast2 Rminus m
       (map (Rmult (alpha ag)) (map (fun r : vec * R * vec => snd (fst r)) out)) ;
   b <-! bcast2 Rmult (map (fun k => k * gamma ag) (map t_mask batch))
           min_qf_next_target ;
   bcast2 Rplus (map t_reward batch) b)%result
  = Ok (map2 (td_target_row ag) batch out).
Proof.
  intros Hlen. cbv zeta.
  rewrite bcast2_same by (rewrite !length_map; reflexivity).
  cbn [rbind].
  do 3 (rewrite bcast2_same
          by (repeat rewrite ?length_map, ?map2_length_min; lia);
        cbn [rbind]).
  f_equal. revert out Hlen.
  induction batch as [|t batch IH]; intros [|o out] Hlen; simpl in Hlen;
    try discriminate.
  - reflexivity.
  - simpl. f_equal. apply IH. congruence.
Qed.

Lemma next_q_value_spec n_inputs n_actions hidden_dim batch w :
  Actor_shape n_inputs n_actions hidden_dim (actor (self w)) ->
  Forall (fun t => length (t_next_state t) = n_inputs) batch ->
  exists out,
    sample_rows (actor (self w)) (map t_next_state batch)
      (batch_noise (noise w) (cursor w) n_actions (length batch)) = Ok out /\
    length out = length batch /\
    next_q_value batch w
    = (Ok (map2 (td_target_row (self w)) batch out),
       set_cursor (cursor w + length batch * n_actions) w).
Proof.
  intros Ha Hb.
  assert (Hs : Forall (fun s : vec => length s = n_inputs)
                 (map t_next_state batch)).
  { apply Forall_forall. intros s Hin. apply in_map_iff in Hin.
    destruct Hin as (t & <- & Hin). rewrite Forall_forall in Hb. auto. }
  destruct (Actor_sample_spec _ _ _ _ _ Ha Hs) as (out & E & Elen & HA).
  rewrite length_map in E, Elen, HA.
  exists out. split; [exact E|]. split; [exact Elen|].
  unfold next_q_value. cbv zeta. unfold bind at 1. rewrite HA.
  unfold bind, gets, critic_batch, lift. cbn [self set_cursor].
  f_equal. exact (td_target_rows (self w) batch out Elen).
Qed.

(** C4: on a well-shaped actor and batch, the TD target that
    [update_parameters] forms has one entry per transition, equal to
    [reward + mask * gamma * (min(Q1', Q2') - alpha * log_prob)], where the
    next action and [log_prob] are sampled from the current actor at the
    next state and [Q1'], [Q2'] are the heads of the target critic there.
    With [mask = 0] the entry is the reward; with [mask = 1], [reward = 0]
    and [gamma = 1] it is the soft value estimate. *)
Theorem next_q_value_is_td_target
    (n_inputs n_actions hidden_dim : nat) (batch : list Transition) (w : World) :
  Actor_shape n_inputs n_actions hidden_dim (actor (self w)) ->
  Forall (fun t => length (t_next_state t) = n_inputs) batch ->
  exists out target,
    sample_rows (actor (self w)) (map t_next_state batch)
      (batch_noise (noise w) (cursor w) n_actions (length batch)) = Ok out /\
    fst (next_q_value batch w) = Ok target /\
    length target = length batch /\
    forall k t,
      nth_error batch k = Some t ->
      exists o,
        nth_error out k = Some o /\
        nth_error target k = Some (td_target_row (self w) t o) /\
        td_target_row (self w) t o
        = t_reward t + t_mask t * gamma (self w) * soft_value (self w) t o /\
        soft_value (self w) t o
        = Rmin (fst (critic_forward (critic_target (self w))
                                    (t_next_state t) (fst (fst o))))
               (snd (critic_forward (critic_target (self w))
                                    (t_next_state t) (fst (fst o))))
          - alpha (self w) * snd (fst o) /\
        (t_mask t = 0 -> td_target_row (self w) t o = t_reward t) /\
        (t_mask t = 1 -> t_reward t = 0 -> gamma (self w) = 1 ->
         td_target_row (self w) t o = soft_value (self w) t o).
Proof.
  intros Ha Hb.
  destruct (next_q_value_spec _ _ _ _ _ Ha Hb) as (out & E & Elen & Hq).
  exists out, (map2 (td_target_row (self w)) batch out).
  split; [exact E|]. split; [now rewrite Hq|].
  split; [rewrite map2_length_min, Elen; apply Nat.min_id|].
  intros k t Hk.
  destruct (nth_error out k) as [o|] eqn:Ho.
  - exists o. split; [reflexivity|].
    split; [now apply nth_error_map2|].
    unfold td_target_row, soft_value. cbv zeta.
    split; [reflexivity|]. split; [reflexivity|].
    split.
    + intros ->. ring.
    + intros -> -> ->. ring.
  - exfalso. apply nth_error_None in Ho.
    assert (k < length batch)%nat by (apply nth_error_Some; congruence).
    lia.
Qed.

(** *** [update_parameters] *)

Lemma same_target_refl w : same_target w w.
Proof. reflexivity. Qed.

Lemma same_target_trans w1 w2 w3 :
  same_target w1 w2 -> same_target w2 w3 -> same_target w1 w3.
Proof. unfold same_target. congruence. Qed.

Lemma only_cursor_same_target {A} (c : M World A) :
  preserves only_cursor c -> preserves same_target c.
Proof.
  intros H w. specialize (H w). unfold only_cursor in H. unfold same_target.
  now rewrite H.
Qed.

Lemma memory_sample_buffer_same_target n :
  preserves same_target (memory_sample_buffer n).
Proof.
  intros w. unfold memory_sample_buffer.
  destruct (sample_buffer (memory w) n). reflexivity.
Qed.

Lemma critic_optim_step_same_target loss :
  preserves same_target (critic_optim_step loss).
Proof.
  intros w. unfold critic_optim_step, modify. cbv zeta.
  destruct (opt_step loss (critic (self w)) (critic_optim (self w))).
  reflexivity.
Qed.

Lemma actor_optim_step_same_target loss :
  preserves same_target (actor_optim_step loss).
Proof.
  intros w. unfold actor_optim_step, modify. cbv zeta.
  destruct (opt_step loss (actor (self w)) (actor_optim (self w))).
  reflexivity.
Qed.

Lemma target_sync_same_self updates w : self (snd (target_sync updates w)) = self w.
Proof.
  unfold target_sync, bind, gets.
  destruct (target_update_interval (self w) =? 0)%Z; [reflexivity|].
  destruct (updates mod target_update_interval (self w) =? 0)%Z; reflexivity.
Qed.

Lemma target_sync_same_target updates :
  preserves same_target (target_sync updates).
Proof.
  intros w. unfold same_target. now rewrite target_sync_same_self.
Qed.

Lemma next_q_value_only_cursor batch : preserves only_cursor (next_q_value batch).
Proof.
  unfold next_q_value. cbv zeta.
  apply preserves_bind; [exact only_cursor_trans
                        |apply Actor_sample_only_cursor|intros out].
  apply preserves_bind; [exact only_cursor_trans
                        |apply preserves_gets, only_cursor_refl|intros ag].
  destruct (critic_batch _ _ _). apply preserves_lift, only_cursor_refl.
Qed.

Lemma update_parameters_same_target batch_size updates :
  preserves same_target (update_parameters batch_size updates).
Proof.
  unfold update_parameters.
  apply preserves_bind; [exact same_target_trans
                        |apply memory_sample_buffer_same_target|intros batch].
  cbv zeta.
  apply preserves_bind; [exact same_target_trans
                        |apply only_cursor_same_target,
                           next_q_value_only_cursor|intros target].
  apply preserves_bind; [exact same_target_trans
                        |apply preserves_gets, same_target_refl|intros ag].
  apply preserves_bind; [exact same_target_trans
                        |apply preserves_lift, same_target_refl|intros l].
  apply preserves_bind; [exact same_target_trans
                        |apply critic_optim_step_same_target|intros _].
  apply preserves_bind; [exact same_target_trans
                        |apply only_cursor_same_target,
                           rsample_noise_only_cursor|intros eps].
  apply preserves_bind; [exact same_target_trans
                        |apply preserves_gets, same_target_refl|intros ag'].
  apply preserves_bind; [exact same_target_trans
                        |apply preserves_lift, same_target_refl|intros al].
  apply preserves_bind; [exact same_target_trans
                        |apply actor_optim_step_same_target|intros _].
  apply preserves_bind; [exact same_target_trans
                        |apply target_sync_same_target|intros _].
  apply preserves_ret, same_target_refl.
Qed.

(** [target_sync] leaves the agent as it was, and [update_parameters],
    whether it returns or raises, leaves the target critic as it was. *)
Lemma target_critic_frame (batch_size updates : Z) (w : World) :
  self (snd (target_sync updates w)) = self w /\
  critic_target (self (snd (update_parameters batch_size updates w)))
  = critic_target (self w).
Proof.
  split.
  - apply target_sync_same_self.
  - apply (update_parameters_same_target batch_size updates w).
Qed.

Lemma actor_loss_raises alpha_ c (states eps : list vec) a :
  exists e, actor_loss alpha_ c states eps a = Raise e.
Proof.
  unfold actor_loss.
  destruct (sample_rows a states eps) as [out|e]; cbn [rbind]; [|eauto].
  unfold critic_batch. cbv zeta.
  destruct (bcast2 Rmin _ _) as [m|e]; cbn [rbind]; [|eauto].
  exists TypeError. reflexivity.
Qed.

Lemma actor_loss_TypeError alpha_ c (states eps : list vec) a out :
  sample_rows a states eps = Ok out -> length out = length states ->
  actor_loss alpha_ c states eps a = Raise TypeError.
Proof.
  intros E Elen. unfold actor_loss. rewrite E. cbn [rbind].
  unfold critic_batch. cbv zeta.
  rewrite bcast2_same by (rewrite !length_map; reflexivity).
  reflexivity.
Qed.

Lemma qf_losses_total (states actions : list vec) target c :
  length states = length target -> length actions = length target ->
  exists l, qf_losses states actions target c = Ok l.
Proof.
  intros Hs Ha. unfold qf_losses, critic_batch, mse_loss. cbv zeta.
  rewrite bcast2_same by (rewrite length_map, map2_length_min; lia).
  cbn [rbind].
  rewrite bcast2_same by (rewrite length_map, map2_length_min; lia).
  cbn [rbind]. eauto.
Qed.

(** No call of [update_parameters] returns: whatever is not raised before
    line 66 is raised there. *)
Lemma update_parameters_never_returns batch_size updates w :
  exists e, fst (update_parameters batch_size updates w) = Raise e.
Proof.
  unfold update_parameters. cbv zeta.
  unfold bind at 1.
  destruct (memory_sample_buffer batch_size w) as [[batch|e] w1];
    [|simpl; eauto].
  unfold bind at 1.
  destruct (next_q_value batch w1) as [[target|e] w2]; [|simpl; eauto].
  unfold bind at 1. unfold gets at 1. cbv iota beta.
  unfold bind at 1. unfold lift at 1.
  destruct (qf_losses _ _ _ _) as [l|e]; [|simpl; eauto].
  unfold bind at 1.
  destruct (critic_optim_step _ w2) as [[u|e] w3]; [|simpl; eauto].
  unfold bind at 1.
  destruct (rsample_noise _ w3) as [[eps|e] w4]; [|simpl; eauto].
  unfold bind at 1. unfold gets at 1. cbv iota beta.
  unfold bind at 1. unfold lift at 1.
  destruct (actor_loss_raises (alpha (self w4)) (critic (self w4))
              (map t_state batch) eps (actor (self w4))) as [x Hx].
  rewrite Hx. simpl. eauto.
Qed.

(** C2, as the code has it: line 66 subtracts a tensor from the tuple
    [(self.alpha, log_pi)].  On a well-shaped actor and batch every step
    before it succeeds and [update_parameters] raises [TypeError] there, so
    no actor loss is computed; and for no arguments at all does the
    expression of lines 63-66 have a value. *)
Theorem update_parameters_actor_loss
    (n_inputs n_actions hidden_dim : nat) (batch_size updates : Z) (w : World)
    (batch : list Transition) (m' : Memory) :
  sample_buffer (memory w) batch_size = (Ok batch, m') ->
  Actor_shape n_inputs n_actions hidden_dim (actor (self w)) ->
  Forall (fun t => length (t_state t) = n_inputs /\
                   length (t_next_state t) = n_inputs) batch ->
  fst (update_parameters batch_size updates w) = Raise TypeError /\
  forall alpha_ c (states eps : list vec) a,
    exists e, actor_loss alpha_ c states eps a = Raise e.
Proof.
  intros Hsb Ha Hb. split; [|intros; apply actor_loss_raises].
  assert (Hnext : Forall (fun t => length (t_next_state t) = n_inputs) batch)
    by (eapply Forall_impl; [|exact Hb]; intros t [_ H]; exact H).
  assert (Hcur : Forall (fun s : vec => length s = n_inputs)
                        (map t_state batch)).
  { apply Forall_forall. intros s Hin. apply in_map_iff in Hin.
    destruct Hin as (t & <- & Hin). rewrite Forall_forall in Hb.
    now apply Hb. }
  unfold update_parameters. cbv zeta.
  unfold bind at 1. unfold memory_sample_buffer at 1. rewrite Hsb.
  destruct (next_q_value_spec n_inputs n_actions hidden_dim batch
              (set_memory m' w) Ha Hnext) as (out & _ & Elen & Hq).
  unfold bind at 1. rewrite Hq.
  unfold bind at 1. unfold gets at 1. cbv iota beta.
  destruct (qf_losses_total (map t_state batch) (map t_action batch)
              (map2 (td_target_row (self (set_memory m' w))) batch out)
              (critic (self (set_cursor
                               (cursor (set_memory m' w)
                                + length batch * n_actions)
                               (set_memory m' w)))))
    as [l El].
  { rewrite length_map, map2_length_min. lia. }
  { rewrite length_map, map2_length_min. lia. }
  unfold bind at 1. unfold lift at 1. rewrite El.
  unfold bind at 1. unfold critic_optim_step at 1, modify. cbv zeta.
  destruct (opt_step _ _ _) as [c' o'].
  match goal with
  | |- fst (_ ?w3) = _ =>
      pose proof (rsample_noise_spec n_inputs n_actions hidden_dim
                    (map t_state batch) w3 Ha Hcur) as Hn;
      destruct (sample_rows_total n_inputs n_actions hidden_dim
                  (actor (self w3)) (map t_state batch)
                  (batch_noise (noise w3) (cursor w3) n_actions
                     (length (map t_state batch)))
                  Ha Hcur (batch_noise_rows _ _ _ _)
                  (batch_noise_length _ _ _ _)) as (out2 & E2 & Elen2)
  end.
  unfold bind at 1. rewrite Hn.
  unfold bind at 1. unfold gets at 1. cbv iota beta.
  unfold bind at 1. unfold lift at 1.
  cbn [self set_cursor set_self set_memory with_critic alpha critic actor
       noise cursor] in *.
  rewrite (actor_loss_TypeError _ _ _ _ _ out2 E2 Elen2). reflexivity.
Qed.

(** *** [train] *)

Lemma same_stored_refl w : same_stored w w.
Proof. reflexivity. Qed.

Lemma same_stored_trans w1 w2 w3 :
  same_stored w1 w2 -> same_stored w2 w3 -> same_stored w1 w3.
Proof. unfold same_stored. congruence. Qed.

Lemma only_cursor_same_stored {A} (c : M World A) :
  preserves only_cursor c -> preserves same_stored c.
Proof.
  intros H w. specialize (H w). unfold only_cursor in H. unfold same_stored.
  now rewrite H.
Qed.

Lemma memory_can_sample_same_stored n :
  preserves same_stored (memory_can_sample n).
Proof.
  intros w. unfold memory_can_sample.
  destruct (can_sample (memory w) n). reflexivity.
Qed.

Lemma memory_sample_buffer_same_stored n :
  preserves same_stored (memory_sample_buffer n).
Proof.
  intros w. unfold memory_sample_buffer.
  destruct (sample_buffer (memory w) n). reflexivity.
Qed.

Lemma env_step_call_same_stored action :
  preserves same_stored (env_step_call action).
Proof.
  intros w. unfold env_step_call.
  destruct (env_step (env w) action). reflexivity.
Qed.

Lemma env_reset_call_same_stored : preserves same_stored env_reset_call.
Proof.
  intros w. unfold env_reset_call. destruct (env_reset (env w)). reflexivity.
Qed.

Lemma add_scalar_same_stored tag v step :
  preserves same_stored (add_scalar tag v step).
Proof. intros w. reflexivity. Qed.

Lemma critic_optim_step_same_stored loss :
  preserves same_stored (critic_optim_step loss).
Proof.
  intros w. unfold critic_optim_step, modify. cbv zeta.
  destruct (opt_step loss (critic (self w)) (critic_optim (self w))).
  reflexivity.
Qed.

Lemma actor_optim_step_same_stored loss :
  preserves same_stored (actor_optim_step loss).
Proof.
  intros w. unfold actor_optim_step, modify. cbv zeta.
  destruct (opt_step loss (actor (self w)) (actor_optim (self w))).
  reflexivity.
Qed.

Lemma target_sync_same_stored updates :
  preserves same_stored (target_sync updates).
Proof.
  intros w. unfold target_sync, bind, gets, same_stored.
  destruct (target_update_interval (self w) =? 0)%Z; [reflexivity|].
  destruct (updates mod target_update_interval (self w) =? 0)%Z; reflexivity.
Qed.

Lemma update_parameters_same_stored batch_size updates :
  preserves same_stored (update_parameters batch_size updates).
Proof.
  unfold update_parameters.
  apply preserves_bind; [exact same_stored_trans
                        |apply memory_sample_buffer_same_stored|intros batch].
  cbv zeta.
  apply preserves_bind; [exact same_stored_trans
                        |apply only_cursor_same_stored,
                           next_q_value_only_cursor|intros target].
  apply preserves_bind; [exact same_stored_trans
                        |apply preserves_gets, same_stored_refl|intros ag].
  apply preserves_bind; [exact same_stored_trans
                        |apply preserves_lift, same_stored_refl|intros l].
  apply preserves_bind; [exact same_stored_trans
                        |apply critic_optim_step_same_stored|intros _].
  apply preserves_bind; [exact same_stored_trans
                        |apply only_cursor_same_stored,
                           rsample_noise_only_cursor|intros eps].
  apply preserves_bind; [exact same_stored_trans
                        |apply preserves_gets, same_stored_refl|intros ag'].
  apply preserves_bind; [exact same_stored_trans
                        |apply preserves_lift, same_stored_refl|intros al].
  apply preserves_bind; [exact same_stored_trans
                        |apply actor_optim_step_same_stored|intros _].
  apply preserves_bind; [exact same_stored_trans
                        |apply target_sync_same_stored|intros _].
  apply preserves_ret, same_stored_refl.
Qed.

Lemma update_block_same_stored batch_size updates_per_step updates :
  preserves same_stored (update_block batch_size updates_per_step updates).
Proof.
  unfold update_block.
  apply preserves_bind; [exact same_stored_trans
                        |apply memory_can_sample_same_stored|intros can].
  destruct can; [|apply preserves_ret, same_stored_refl].
  apply preserves_for_range;
    [exact same_stored_refl|exact same_stored_trans|intros i u].
  apply preserves_bind; [exact same_stored_trans
                        |apply preserves_raise, same_stored_refl|intros b].
  apply preserves_bind; [exact same_stored_trans
                        |apply update_parameters_same_stored|intros r].
  destruct r as [[[[c1 c2] al] ent] alp].
  repeat (apply preserves_bind; [exact same_stored_trans
                                |apply add_scalar_same_stored|intros _]).
  apply preserves_ret, same_stored_refl.
Qed.

Lemma update_block_cannot_sample batch_size updates_per_step updates w m' :
  can_sample (memory w) batch_size = (Ok false, m') ->
  update_block batch_size updates_per_step updates w
  = (Ok updates, set_memory m' w).
Proof.
  intros Hc. unfold update_block, bind at 1, memory_can_sample.
  now rewrite Hc.
Qed.

Lemma update_block_can_sample batch_size updates_per_step updates w m' :
  can_sample (memory w) batch_size = (Ok true, m') ->
  (0 < updates_per_step)%Z ->
  update_block batch_size updates_per_step updates w
  = (Raise (NameError "batch_sizem"), set_memory m' w).
Proof.
  intros Hc Hu. unfold update_block, bind at 1, memory_can_sample.
  rewrite Hc.
  destruct (Z.to_nat updates_per_step) as [|n] eqn:En; [lia|].
  reflexivity.
Qed.

(** C7, as the code has it: the updates are guarded by [can_sample], and
    when the buffer cannot sample none is made; when it can, the first of
    the [updates_per_step] iterations reads the unbound name [batch_sizem]
    and raises [NameError] before [update_parameters] is called, so no
    batch is sampled and the update counter is not incremented. *)
Theorem update_block_outcome
    (batch_size updates_per_step updates : Z) (w : World) (can : bool)
    (m' : Memory) :
  can_sample (memory w) batch_size = (Ok can, m') ->
  (0 < updates_per_step)%Z ->
  update_block batch_size updates_per_step updates w
  = (if can then Raise (NameError "batch_sizem") else Ok updates,
     set_memory m' w).
Proof.
  intros Hc Hu. destruct can.
  - now apply update_block_can_sample.
  - now apply update_block_cannot_sample.
Qed.

Lemma mask_01 e m d : mask e m d = 0 \/ mask e m d = 1.
Proof.
  unfold mask. destruct (e =? m)%Z; [now right|]. destruct d; simpl; auto.
Qed.

(** What one pass through the body of the loop stores. *)
Lemma train_step_stored batch_size updates_per_step max_episode_steps L w r w' :
  train_step batch_size updates_per_step max_episode_steps L w = (r, w') ->
  (stored w' = stored w /\ exists e, r = Raise e) \/
  (exists t d,
     stored w' = t :: stored w /\
     t_state t = state L /\
     t_mask t = mask (episode_steps L + 1) max_episode_steps d /\
     forall L',
       r = Ok L' ->
       episode_steps L' = (episode_steps L + 1)%Z /\ done L' = d /\
       state L' = t_next_state t).
Proof.
  unfold train_step. intros H.
  pose proof (only_cursor_same_stored _
                (select_action_only_cursor (state L) false) w) as H1.
  unfold bind at 1 in H.
  destruct (select_action (state L) false w) as [[action|e] w1];
    simpl in H1; [|inversion H; subst; left; eauto].
  pose proof (update_block_same_stored batch_size updates_per_step
                (updates L) w1) as H2.
  unfold bind at 1 in H.
  destruct (update_block batch_size updates_per_step (updates L) w1)
    as [[u|e] w2]; simpl in H2;
    [|inversion H; subst; left; unfold same_stored in *;
      split; [congruence|eauto]].
  pose proof (env_step_call_same_stored action w2) as H3.
  unfold bind at 1 in H.
  destruct (env_step_call action w2) as [[[[next_state reward] d]|e] w3];
    simpl in H3;
    [|inversion H; subst; left; unfold same_stored in *;
      split; [congruence|eauto]].
  right.
  exists (mkTransition (state L) action reward next_state
            (mask (episode_steps L + 1) max_episode_steps d)), d.
  unfold bind, memory_store_transition in H.
  destruct (store_transition (memory w3) _) as [[[]|e] m4]; simpl in H;
    inversion H; subst; clear H; unfold same_stored in *; simpl.
  - split; [congruence|]. split; [reflexivity|]. split; [reflexivity|].
    intros L' HL'. inversion HL'; subst L'. simpl. auto.
  - split; [congruence|]. split; [reflexivity|]. split; [reflexivity|].
    intros L' HL'. discriminate.
Qed.

Lemma stores_masked_refl w : stores_masked w w.
Proof. exists []. auto. Qed.

Lemma stores_masked_trans w1 w2 w3 :
  stores_masked w1 w2 -> stores_masked w2 w3 -> stores_masked w1 w3.
Proof.
  intros (n1 & E1 & F1) (n2 & E2 & F2). exists (n2 ++ n1). split.
  - rewrite E2, E1. now rewrite app_assoc.
  - apply Forall_app. auto.
Qed.

Lemma same_stored_stores_masked {A} (c : M World A) :
  preserves same_stored c -> preserves stores_masked c.
Proof. intros H w. exists []. split; [apply H|constructor]. Qed.

Lemma train_step_stores_masked batch_size updates_per_step max_episode_steps L :
  preserves stores_masked
    (train_step batch_size updates_per_step max_episode_steps L).
Proof.
  intros w.
  destruct (train_step batch_size updates_per_step max_episode_steps L w)
    as [r w'] eqn:E.
  destruct (train_step_stored _ _ _ _ _ _ _ E)
    as [[Hs _]|(t & d & Hs & _ & Hm & _)]; simpl.
  - exists []. split; [exact Hs|constructor].
  - exists [t]. split; [exact Hs|]. constructor; [|constructor].
    unfold mask01. rewrite Hm. apply mask_01.
Qed.

Lemma episode_loop_stores_masked fuel batch_size updates_per_step
    max_episode_steps L :
  preserves stores_masked
    (episode_loop fuel batch_size updates_per_step max_episode_steps L).
Proof.
  revert L. induction fuel as [|fuel IH]; intros L; simpl.
  - apply preserves_ret, stores_masked_refl.
  - destruct (negb (done L) && (episode_steps L <? max_episode_steps)%Z).
    + apply preserves_bind; [exact stores_masked_trans
                            |apply train_step_stores_masked|intros L'; apply IH].
    + apply preserves_ret, stores_masked_refl.
Qed.

Lemma train_stores_masked episodes batch_size updates_per_step max_episode_steps :
  preserves stores_masked
    (train episodes batch_size updates_per_step max_episode_steps).
Proof.
  unfold train. cbv zeta.
  apply preserves_bind; [exact stores_masked_trans| |intros tu;
                         apply preserves_ret, stores_masked_refl].
  apply preserves_for_range;
    [exact stores_masked_refl|exact stores_masked_trans|intros episode tu].
  unfold train_episode.
  apply preserves_bind; [exact stores_masked_trans
                        |apply same_stored_stores_masked,
                           env_reset_call_same_stored|intros s].
  apply preserves_bind; [exact stores_masked_trans
                        |apply episode_loop_stores_masked|intros L].
  apply preserves_bind; [exact stores_masked_trans
                        |apply same_stored_stores_masked,
                           add_scalar_same_stored|intros _].
  apply preserves_bind; [exact stores_masked_trans| |intros _;
                         apply preserves_ret, stores_masked_refl].
  unfold save_checkpoint.
  destruct (episode mod 10 =? 0)%Z; apply preserves_ret, stores_masked_refl.
Qed.

(** The loop equation of [while]: the fuel that [run_episode] hands to
    [episode_loop] is never exhausted. *)
Lemma run_episode_unfold batch_size updates_per_step max_episode_steps L w :
  run_episode batch_size updates_per_step max_episode_steps L w
  = if negb (done L) && (episode_steps L <? max_episode_steps)%Z
    then bind (train_step batch_size updates_per_step max_episode_steps L)
              (run_episode batch_size updates_per_step max_episode_steps) w
    else (Ok L, w).
Proof.
  unfold run_episode.
  destruct (negb (done L) && (episode_steps L <? max_episode_steps)%Z) eqn:C.
  - apply andb_prop in C. destruct C as [Cd Cs]. apply Z.ltb_lt in Cs.
    replace (Z.to_nat (max_episode_steps - episode_steps L))
      with (S (Z.to_nat (max_episode_steps - (episode_steps L + 1)))) by lia.
    cbn [episode_loop]. rewrite Cd. rewrite (proj2 (Z.ltb_lt _ _) Cs).
    cbn [andb]. unfold bind.
    destruct (train_step batch_size updates_per_step max_episode_steps L w)
      as [[L1|e] w1] eqn:E; [|reflexivity].
    destruct (train_step_stored _ _ _ _ _ _ _ E)
      as [[_ [e He]]|(t & d & _ & _ & _ & HL)]; [discriminate|].
    destruct (HL L1 eq_refl) as (Hs & _). now rewrite Hs.
  - destruct (Z.to_nat (max_episode_steps - episode_steps L)); simpl;
      [reflexivity|]. now rewrite C.
Qed.

(** The transition stored last when the loop of an episode ends. *)
Lemma episode_loop_final batch_size updates_per_step max_episode_steps fuel :
  forall L w L' w',
    episode_loop fuel batch_size updates_per_step max_episode_steps L w
    = (Ok L', w') ->
    (Z.to_nat (max_episode_steps - episode_steps L) <= fuel)%nat ->
    (L' = L /\ w' = w /\
     negb (done L) && (episode_steps L <? max_episode_steps)%Z = false) \/
    (exists t rest,
        stored w' = t :: rest /\
        t_mask t = mask (episode_steps L') max_episode_steps (done L') /\
        negb (done L') && (episode_steps L' <? max_episode_steps)%Z = false /\
        (episode_steps L < episode_steps L' <= max_episode_steps)%Z).
Proof.
  induction fuel as [|fuel IH]; intros L w L' w' H Hf.
  - simpl in H. inversion H; subst. left. split; [reflexivity|].
    split; [reflexivity|].
    apply andb_false_iff. right. apply Z.ltb_ge. lia.
  - cbn [episode_loop] in H.
    destruct (negb (done L) && (episode_steps L <? max_episode_steps)%Z) eqn:C.
    + apply andb_prop in C. destruct C as [Cd Cs]. apply Z.ltb_lt in Cs.
      unfold bind in H.
      destruct (train_step batch_size updates_per_step max_episode_steps L w)
        as [[L1|e] w1] eqn:E; [|discriminate].
      destruct (train_step_stored _ _ _ _ _ _ _ E)
        as [[_ [e He]]|(t & d & Hst & _ & Hm & HL)]; [discriminate|].
      destruct (HL L1 eq_refl) as (Hs & Hd & _).
      right. destruct (IH L1 w1 L' w' H) as [(-> & -> & C1)|(t' & rest & Hst' & Hm' & C' & Hr)];
        [lia| |].
      * exists t, (stored w). split; [exact Hst|].
        split; [now rewrite Hm, Hs, Hd|]. split; [exact C1|]. lia.
      * exists t', rest. split; [exact Hst'|]. split; [exact Hm'|].
        split; [exact C'|]. lia.
    + inversion H; subst. left. auto.
Qed.


End AgentProofs.

(** ** The claims on the concrete agent *)

Lemma actor0_shape_None : Actor_shape 1 1 1 (actor0 None).
Proof.
  unfold Actor_shape, Linear_shape, broadcastable. simpl.
  repeat split; auto.
Qed.

Lemma select_action_evaluate_witness :
  exists mean log_std,
    forward (actor0 None) [0] = Ok (mean, log_std) /\
    fst (select_action [0] true (world0 None []))
    = Ok (tab 1 (fun i =>
            tanh (nth i mean 0) * bc (action_scale (actor0 None)) i
            + bc (action_bias (actor0 None)) i)) /\
    fst (select_action [0] false (world0 None []))
    = Ok (tab 1 (fun i =>
            tanh (raw_sample mean log_std (map (fun _ => 1) (seq 0 1)) i)
            * bc (action_scale (actor0 None)) i
            + bc (action_bias (actor0 None)) i)) /\
    forall w2 : World,
      actor (self w2) = actor0 None ->
      fst (select_action [0] true w2)
      = fst (select_action [0] true (world0 None [])).
Proof.
  exact (select_action_evaluate 1 1 1 [0] (world0 None [])
           actor0_shape_None eq_refl).
Defined.

Lemma next_q_value_is_td_target_witness :
  exists out target,
    sample_rows (actor0 None) [[0]] (batch_noise (fun _ => 1) 0 1 1) = Ok out /\
    fst (next_q_value [transition0] (world0 None [])) = Ok target /\
    length target = 1%nat /\
    forall k t,
      nth_error [transition0] k = Some t ->
      exists o,
        nth_error out k = Some o /\
        nth_error target k = Some (td_target_row (agent0 None) t o) /\
        td_target_row (agent0 None) t o
        = t_reward t + t_mask t * gamma (agent0 None)
                       * soft_value (agent0 None) t o /\
        soft_value (agent0 None) t o
        = Rmin (fst (critic_forward (critic_target (agent0 None))
                                    (t_next_state t) (fst (fst o))))
               (snd (critic_forward (critic_target (agent0 None))
                                    (t_next_state t) (fst (fst o))))
          - alpha (agent0 None) * snd (fst o) /\
        (t_mask t = 0 -> td_target_row (agent0 None) t o = t_reward t) /\
        (t_mask t = 1 -> t_reward t = 0 -> gamma (agent0 None) = 1 ->
         td_target_row (agent0 None) t o = soft_value (agent0 None) t o).
Proof.
  exact (next_q_value_is_td_target 1 1 1 [transition0] (world0 None [])
           actor0_shape_None
           (Forall_cons transition0 (eq_refl : length [0] = 1%nat)
              (Forall_nil _))).
Defined.

Lemma update_parameters_actor_loss_witness :
  sample_buffer (memory (world0 None [transition0])) 1
  = (Ok [transition0], [transition0]) /\
  fst (update_parameters 1 0 (world0 None [transition0])) = Raise TypeError.
Proof.
  split; [reflexivity|].
  apply (update_parameters_actor_loss 1 1 1 1 0 (world0 None [transition0])
           [transition0] [transition0] eq_refl actor0_shape_None).
  constructor; [split; reflexivity|constructor].
Defined.

Lemma update_block_outcome_witness :
  can_sample (memory (world0 None [transition0])) 1 = (Ok true, [transition0]) /\
  update_block 1 1 0 (world0 None [transition0])
  = (Raise (NameError "batch_sizem"),
     set_memory [transition0] (world0 None [transition0])).
Proof.
  split; [reflexivity|].
  apply (update_block_outcome 1 1 0 (world0 None [transition0]) true
           [transition0] eq_refl).
  reflexivity.
Defined.

(** One pass through the loop body on the concrete collaborators, while
    the buffer cannot sample: the environment advances by one step and the
    transition is stored. *)
Lemma train_step_concrete (batch_size updates_per_step max_episode_steps : Z)
    (L : Locals) (w : World) :
  actor (self w) = actor0 None ->
  state L = [0] ->
  (Z.of_nat (length (memory w : list Transition)) < batch_size)%Z ->
  exists t w',
    train_step batch_size updates_per_step max_episode_steps L w
    = (Ok (mkLocals (total_numsteps L + 1) (updates L) (episode_reward L + 1)
                    (episode_steps L + 1) (2 <=? (env w : Z) + 1)%Z [0]), w') /\
    actor (self w') = actor0 None /\
    (env w' : Z) = ((env w : Z) + 1)%Z /\
    (memory w' : list Transition) = t :: memory w /\
    stored w' = t :: stored w /\
    t_mask t = mask (episode_steps L + 1) max_episode_steps
                    (2 <=? (env w : Z) + 1)%Z.
Proof.
  intros Ha Hs Hm. unfold train_step. unfold bind at 1. rewrite Hs.
  assert (Hshape : Actor_shape 1 1 1 (actor (self w)))
    by (rewrite Ha; exact actor0_shape_None).
  assert (Hf : forward (actor (self w)) [0] = Ok ([0], [0]))
    by (rewrite Ha; apply forward_actor0).
  rewrite (select_action_value 1 1 1 [0] false w [0] [0] Hshape eq_refl Hf).
  unfold bind at 1.
  erewrite update_block_cannot_sample;
    [|simpl; f_equal; f_equal; apply Z.leb_gt; exact Hm].
  do 2 eexists. split; [reflexivity|].
  simpl. repeat split; auto.
Qed.

(** With a cap of one step the episode ends at the cap. *)
Lemma run_episode_at_cap :
  exists L' w',
    run_episode 10 1 1 locals0 (world0 None []) = (Ok L', w') /\
    episode_steps L' = 1%Z.
Proof.
  destruct (train_step_concrete 10 1 1 locals0 (world0 None [])
              eq_refl eq_refl eq_refl)
    as (t1 & w1 & E1 & _).
  rewrite run_episode_unfold.
  change (negb (done locals0) && (episode_steps locals0 <? 1)%Z) with true.
  cbv iota. unfold bind at 1. rewrite E1.
  rewrite run_episode_unfold. do 2 eexists. split; reflexivity.
Qed.

(** With a cap of five steps the environment ends the episode at the
    second step. *)
Lemma run_episode_done_early :
  exists L' w',
    run_episode 10 1 5 locals0 (world0 None []) = (Ok L', w') /\
    episode_steps L' = 2%Z /\ done L' = true.
Proof.
  destruct (train_step_concrete 10 1 5 locals0 (world0 None [])
              eq_refl eq_refl eq_refl)
    as (t1 & w1 & E1 & Ha1 & He1 & Hm1 & _).
  rewrite run_episode_unfold.
  change (negb (done locals0) && (episode_steps locals0 <? 5)%Z) with true.
  cbv iota. unfold bind at 1. rewrite E1.
  match type of E1 with
  | _ = (Ok ?L1, _) =>
      destruct (train_step_concrete 10 1 5 L1 w1 Ha1 eq_refl)
        as (t2 & w2 & E2 & _ & _ & _ & _ & _);
      [rewrite Hm1; simpl; lia|];
      rewrite run_episode_unfold;
      change (negb (done L1) && (episode_steps L1 <? 5)%Z) with true;
      cbv iota; unfold bind at 1; rewrite E2
  end.
  rewrite run_episode_unfold. rewrite He1.
  do 2 eexists. split; [reflexivity|]. split; reflexivity.
Qed.


(** C3, as the code has it: the branch taken every
    [target_update_interval] updates is [pass], so for every critic,
    optimizer, buffer and environment [target_sync] leaves the agent as it
    was, and after [update_parameters], whether it returns or raises, the
    target critic is the one before the call, whatever [tau] is.  On the
    agent with [tau = 1], interval 1, critic 0 and target critic 1, the
    target critic is still 1 after the synchronisation of update 0. *)
Theorem target_critic_unchanged :
  (forall (CR : Critic) (CO : Optimizer CriticNet) (AO : Optimizer Actor)
          (RB : ReplayBuffer) (EV : Environment)
          (batch_size updates : Z) (w : World),
      self (snd (target_sync updates w)) = self w /\
      critic_target (self (snd (update_parameters batch_size updates w)))
      = critic_target (self w)) /\
  tau (self world_tau1) = 1 /\
  (0 mod target_update_interval (self world_tau1) =? 0)%Z = true /\
  critic (self world_tau1) = 0 /\
  critic_target (self (snd (target_sync 0 world_tau1))) = 1.
Proof.
  split; [intros; apply target_critic_frame|].
  repeat split; reflexivity.
Qed.

(** On a buffer that can sample, the first pass through the loop raises
    at the first update, and so does [train]. *)
Lemma run_episode_raises_NameError :
  exists w',
    run_episode 1 1 1 locals0 (snd (env_reset_call (world0 None [transition0])))
    = (Raise (NameError "batch_sizem"), w').
Proof.
  rewrite run_episode_unfold.
  change (negb (done locals0) && (episode_steps locals0 <? 1)%Z) with true.
  cbv iota. unfold bind at 1. unfold train_step. unfold bind at 1.
  change (state locals0) with ([0] : vec).
  rewrite (select_action_value 1 1 1 [0] false
             (snd (env_reset_call (world0 None [transition0]))) [0] [0]
             actor0_shape_None eq_refl (forward_actor0 None 0)).
  unfold bind at 1.
  erewrite update_block_can_sample by reflexivity.
  eexists. reflexivity.
Qed.

Lemma train_raises_NameError :
  fst (train 1 1 1 1 (world0 None [transition0]))
  = Raise (NameError "batch_sizem").
Proof.
  destruct run_episode_raises_NameError as [w' E].
  unfold train. cbv zeta.
  change (Z.to_nat 1) with 1%nat. cbn [for_range].
  unfold bind at 1. unfold bind at 1. unfold train_episode.
  unfold bind at 1.
  change (env_reset_call (world0 None [transition0]))
    with (Ok ([0] : vec), snd (env_reset_call (world0 None [transition0]))).
  cbv iota. unfold bind at 1.
  change (mkLocals (fst (0%Z, 0%Z)) (snd (0%Z, 0%Z)) 0 0 false [0])
    with locals0.
  rewrite E. reflexivity.
Qed.

(** ** Further properties of model.py *)

Lemma exp_le x y : x <= y -> exp x <= exp y.
Proof.
  intros [H|H]; [left; now apply exp_increasing|right; now rewrite H].
Qed.

(** X1: [forward] clamps: every entry of [log_std] lies in [LOG_SIG_MIN,
    LOG_SIG_MAX] = [-20, 2], so every standard deviation [exp(log_std)] that
    [sample] uses lies in [exp(-20), exp(2)], whatever the parameters and the
    state. *)
Theorem forward_std_range (a : Actor) (state mean log_std : vec) :
  forward a state = Ok (mean, log_std) ->
  Forall (fun v => -20 <= v <= 2) log_std /\
  Forall (fun s => exp (-20) <= s <= exp 2) (map exp log_std).
Proof.
  intros Hf. pose proof (forward_log_std_clamped _ _ _ _ Hf) as Hc.
  unfold LOG_SIG_MIN, LOG_SIG_MAX in Hc. split; [exact Hc|].
  rewrite Forall_forall in Hc. apply Forall_forall. intros s Hin.
  apply in_map_iff in Hin. destruct Hin as (v & <- & Hv).
  destruct (Hc v Hv). split; now apply exp_le.
Qed.

Lemma forward_std_range_witness :
  forward (actor0 None) [0] = Ok ([0], [0]) /\
  Forall (fun v => -20 <= v <= 2) [0] /\
  Forall (fun s => exp (-20) <= s <= exp 2) (map exp [0]).
Proof.
  split; [apply forward_actor0|].
  exact (forward_std_range (actor0 None) [0] [0] [0] (forward_actor0 None 0)).
Defined.

Lemma linear_shape_error n_in n_out l x :
  Linear_shape n_in n_out l -> (0 < n_out)%nat -> length x <> n_in ->
  linear l x = Raise RuntimeError.
Proof.
  intros (Hw & Hb & Hr) Hpos Hx. unfold linear.
  destruct (weight l) as [|row rows] eqn:E; [simpl in Hw; lia|].
  inversion Hr as [|? ? Hrow _]; subst.
  simpl. replace (length row =? length x)%nat with false; [reflexivity|].
  symmetry. apply Nat.eqb_neq. congruence.
Qed.

(** X2: On an actor with the layer shapes of [Actor.__init__] and at least one
    hidden unit, [forward] returns exactly on the states of [n_inputs]
    entries, with [mean] and [log_std] of [n_actions] entries each; on a state
    of any other length [forward] and [sample] raise [RuntimeError]. *)
Theorem forward_state_length
    (n_inputs n_actions hidden_dim : nat) (a : Actor) (state : vec) :
  Actor_shape n_inputs n_actions hidden_dim a ->
  (0 < hidden_dim)%nat ->
  (length state = n_inputs ->
   exists mean log_std,
     forward a state = Ok (mean, log_std) /\
     length mean = n_actions /\ length log_std = n_actions) /\
  (length state <> n_inputs ->
   forward a state = Raise RuntimeError /\
   forall eps, sample a state eps = Raise RuntimeError).
Proof.
  intros Ha Hh. split.
  - intros Hs. exact (forward_total _ _ _ _ _ Ha Hs).
  - intros Hs. destruct Ha as (H1 & _).
    assert (Hf : forward a state = Raise RuntimeError).
    { unfold forward. now rewrite (linear_shape_error _ _ _ _ H1 Hh Hs). }
    split; [exact Hf|]. intros eps. unfold sample. now rewrite Hf.
Qed.

Lemma forward_state_length_witness :
  (exists mean log_std,
      forward (actor0 None) [0] = Ok (mean, log_std) /\
      length mean = 1%nat /\ length log_std = 1%nat) /\
  forward (actor0 None) [0; 0] = Raise RuntimeError /\
  (forall eps, sample (actor0 None) [0; 0] eps = Raise RuntimeError).
Proof.
  destruct (forward_state_length 1 1 1 (actor0 None) [0]
              actor0_shape_None (le_n 1)) as [Hok _].
  destruct (forward_state_length 1 1 1 (actor0 None) [0; 0]
              actor0_shape_None (le_n 1)) as [_ Herr].
  split; [exact (Hok eq_refl)|].
  apply Herr. simpl. discriminate.
Defined.

Lemma bcast2_raise f x y :
  length x <> length y -> length x <> 1%nat -> length y <> 1%nat ->
  bcast2 f x y = Raise RuntimeError.
Proof.
  intros Hxy Hx Hy. unfold bcast2.
  rewrite (proj2 (Nat.eqb_neq _ _) Hxy).
  destruct x as [|a [|a' x]]; destruct y as [|b [|b' y]]; simpl in *;
    try reflexivity; congruence.
Qed.

Lemma bcast2_scalar_l f a y : bcast2 f [a] y = Ok (map (f a) y).
Proof.
  unfold bcast2. destruct y as [|b [|b' y]]; reflexivity.
Qed.

Lemma bcast2_inplace_raise f x y :
  length x <> length y -> length y <> 1%nat ->
  bcast2_inplace f x y = Raise RuntimeError.
Proof.
  intros Hxy Hy. unfold bcast2_inplace.
  rewrite (proj2 (Nat.eqb_neq _ _) Hxy).
  destruct y as [|b [|b' y]]; simpl in *; try reflexivity; congruence.
Qed.

(** X3: An actor whose rescaling tensors have [k] entries, with [k] neither
    [n_actions] nor 1 (an action space of another dimension than the heads),
    cannot sample: on every state of the right length [sample] raises
    [RuntimeError]. *)
Theorem sample_action_space_dimension
    (n_inputs n_actions hidden_dim k : nat) (a : Actor) (state eps : vec) :
  Linear_shape n_inputs hidden_dim (linear1 a) ->
  Linear_shape hidden_dim hidden_dim (linear2 a) ->
  Linear_shape hidden_dim n_actions (mean_linear a) ->
  Linear_shape hidden_dim n_actions (log_std_linear a) ->
  length (action_scale a) = k -> length (action_bias a) = k ->
  k <> n_actions -> k <> 1%nat ->
  length state = n_inputs -> length eps = n_actions ->
  sample a state eps = Raise RuntimeError.
Proof.
  intros H1 H2 Hmu Hsd Hs Hb Hkn Hk1 Hst He.
  assert (Ha : Actor_shape n_inputs n_actions hidden_dim
                 (mkActor (linear1 a) (linear2 a) (mean_linear a)
                          (log_std_linear a) [1] [0])).
  { unfold Actor_shape, broadcastable. simpl. repeat split; auto;
      try apply H1; try apply H2; try apply Hmu; try apply Hsd. }
  destruct (forward_total _ _ _ _ _ Ha Hst) as (mean & log_std & Hf & Hm & Hl).
  change (forward a state = Ok (mean, log_std)) in Hf.
  unfold sample. rewrite Hf. cbn [rbind]. unfold Normal_rsample.
  rewrite (bcast2_tab_eq Rmult eps (map exp log_std) n_actions)
    by (rewrite ?length_map; auto).
  cbn [rbind].
  rewrite (bcast2_tab_eq Rplus mean _ n_actions)
    by (rewrite ?tab_length; auto).
  cbn [rbind].
  destruct (Nat.eq_dec n_actions 1) as [E1|N1].
  - rewrite E1 in *. unfold tab. cbn [seq map].
    rewrite bcast2_scalar_l. cbn [rbind].
    rewrite bcast2_same by (rewrite !length_map; congruence).
    cbn [rbind]. unfold Normal_log_prob.
    rewrite bcast2_scalar_l. cbn [rbind].
    rewrite bcast2_same by (rewrite !length_map; congruence).
    cbn [rbind].
    rewrite bcast2_same
      by (rewrite map2_length_min, !length_map; rewrite Hm, Hl; reflexivity).
    cbn [rbind]. rewrite bcast2_scalar_r. cbn [rbind].
    rewrite bcast2_inplace_raise; [reflexivity| |];
      rewrite ?length_map, ?map2_length_min, ?length_map, ?Hm, ?Hl;
      simpl; congruence.
  - rewrite bcast2_raise;
      [reflexivity| | |]; rewrite ?length_map, ?tab_length; congruence.
Qed.

Lemma sample_action_space_dimension_witness :
  length (action_scale (actor0 (Some box2))) = 2%nat /\
  sample (actor0 (Some box2)) [0] [1] = Raise RuntimeError.
Proof.
  split; [reflexivity|].
  apply (sample_action_space_dimension 1 1 1 2 (actor0 (Some box2)) [0] [1]);
    try reflexivity; try discriminate;
    unfold Linear_shape; simpl; repeat split; auto.
Defined.

(** X4: With the rescaling tensors that [Actor.__init__] computes from valid
    bounds (scale and bias both [(high - low) / 2]), both the sampled action
    and the mean action that [sample] returns lie in [0, high - low]
    componentwise. *)
Theorem sample_outputs_range
    (n_inputs n_actions hidden_dim : nat) (a : Actor) (sp : Box)
    (state eps : vec) :
  Actor_shape n_inputs n_actions hidden_dim a ->
  length state = n_inputs -> length eps = n_actions ->
  valid_space sp -> length (low sp) = n_actions ->
  action_scale a = action_scale (Actor_init [] [] [] [] (Some sp)) ->
  action_bias a = action_bias (Actor_init [] [] [] [] (Some sp)) ->
  exists action log_prob mean_action,
    sample a state eps = Ok (action, log_prob, mean_action) /\
    length action = n_actions /\ length mean_action = n_actions /\
    forall i, (i < n_actions)%nat ->
      0 <= nth i action 0 <= nth i (high sp) 0 - nth i (low sp) 0 /\
      0 <= nth i mean_action 0 <= nth i (high sp) 0 - nth i (low sp) 0.
Proof.
  intros Hshape Hst He [Hlen Hle] Hn Hs Hb.
  destruct (forward_total _ _ _ _ _ Hshape Hst)
    as (mean & log_std & Hf & Hm & Hl).
  pose proof Hshape as (_ & _ & _ & _ & Hbs & Hbb).
  do 3 eexists.
  split; [apply (sample_spec a state eps mean log_std n_actions); auto|].
  split; [apply tab_length|]. split; [apply tab_length|].
  intros i Hi. rewrite !tab_nth by exact Hi.
  assert (E : forall p, p = map2 (fun h l => (h - l) / 2) (high sp) (low sp) ->
                        bc p i = (nth i (high sp) 0 - nth i (low sp) 0) / 2).
  { intros p ->.
    rewrite (map2_tab _ (high sp) (low sp) n_actions) by congruence.
    rewrite bc_nth by (now rewrite tab_length).
    now rewrite tab_nth. }
  rewrite (E _ Hs), (E _ Hb).
  pose proof (tanh_bounds (raw_sample mean log_std eps i)) as Ht.
  pose proof (tanh_bounds (nth i mean 0)) as Ht'.
  specialize (Hle i ltac:(lia)). split; nra.
Qed.

Lemma sample_outputs_range_witness :
  valid_space unit_box /\
  exists action log_prob mean_action,
    sample (actor0 (Some unit_box)) [0] [1]
    = Ok (action, log_prob, mean_action) /\
    length action = 1%nat /\ length mean_action = 1%nat /\
    forall i, (i < 1)%nat ->
      0 <= nth i action 0 <= nth i (high unit_box) 0 - nth i (low unit_box) 0 /\
      0 <= nth i mean_action 0
        <= nth i (high unit_box) 0 - nth i (low unit_box) 0.
Proof.
  assert (Hv : valid_space unit_box).
  { split; [reflexivity|]. simpl. intros [|[|i]] Hi; simpl; lra. }
  split; [exact Hv|].
  exact (sample_outputs_range 1 1 1 (actor0 (Some unit_box)) unit_box [0] [1]
           (actor0_shape unit_box eq_refl eq_refl) eq_refl eq_refl Hv eq_refl
           eq_refl eq_refl).
Defined.

(** X5: With zero noise the sampled action is the mean action: on a
    well-shaped actor and state, [sample] with [eps = 0] returns the same
    vector as its first and as its third result. *)
Theorem sample_zero_noise
    (n_inputs n_actions hidden_dim : nat) (a : Actor) (state : vec) :
  Actor_shape n_inputs n_actions hidden_dim a ->
  length state = n_inputs ->
  exists action log_prob,
    sample a state (repeat 0 n_actions) = Ok (action, log_prob, action).
Proof.
  intros Hshape Hst.
  destruct (forward_total _ _ _ _ _ Hshape Hst)
    as (mean & log_std & Hf & Hm & Hl).
  pose proof Hshape as (_ & _ & _ & _ & Hbs & Hbb).
  rewrite (sample_spec a state (repeat 0 n_actions) mean log_std n_actions
             Hf Hm Hl (repeat_length 0 n_actions) Hbs Hbb).
  exists (tab n_actions (fun i => tanh (nth i mean 0) * bc (action_scale a) i
                                  + bc (action_bias a) i)).
  eexists. apply f_equal.
  apply f_equal2; [apply f_equal2; [|reflexivity]|reflexivity].
  apply tab_ext. intros i Hi.
  unfold raw_sample. rewrite nth_repeat.
  replace (nth i mean 0 + 0 * exp (nth i log_std 0)) with (nth i mean 0)
    by ring.
  reflexivity.
Qed.

Lemma sample_zero_noise_witness :
  exists action log_prob,
    sample (actor0 (Some unit_box)) [0] (repeat 0 1)
    = Ok (action, log_prob, action).
Proof.
  exact (sample_zero_noise 1 1 1 (actor0 (Some unit_box)) [0]
           (actor0_shape unit_box eq_refl eq_refl) eq_refl).
Defined.

Lemma ln_le x y : 0 < x -> x <= y -> ln x <= ln y.
Proof.
  intros Hx [H|H]; [left; now apply ln_increasing|right; now rewrite H].
Qed.

Lemma vsum_tab_le n g c :
  (forall i, (i < n)%nat -> g i <= c) -> vsum (tab n g) <= INR n * c.
Proof.
  revert g. induction n as [|n IH]; intros g Hg.
  - simpl. lra.
  - rewrite tab_S, S_INR. simpl.
    pose proof (Hg 0%nat ltac:(lia)).
    pose proof (IH (fun i => g (S i)) ltac:(intros; apply Hg; lia)).
    lra.
Qed.

(** X6: The clamp of [log_std] and the [epsilon] under the logarithm bound the
    log-probability from above: on a well-shaped actor whose action scale is
    not negative, [sample] returns a [log_prob] of at most [n_actions * (20 -
    log(sqrt(2 pi)) - log(epsilon))]. *)
Theorem sample_log_prob_upper_bound
    (n_inputs n_actions hidden_dim : nat) (a : Actor) (state eps : vec) :
  Actor_shape n_inputs n_actions hidden_dim a ->
  length state = n_inputs -> length eps = n_actions ->
  (forall i, 0 <= bc (action_scale a) i) ->
  exists action log_prob mean_action,
    sample a state eps = Ok (action, log_prob, mean_action) /\
    log_prob <= INR n_actions * (20 - ln (sqrt (2 * PI)) - ln epsilon).
Proof.
  intros Hshape Hst He Hsc.
  destruct (forward_total _ _ _ _ _ Hshape Hst)
    as (mean & log_std & Hf & Hm & Hl).
  pose proof Hshape as (_ & _ & _ & _ & Hbs & Hbb).
  pose proof (forward_log_std_clamped _ _ _ _ Hf) as Hc.
  rewrite Forall_forall in Hc. unfold LOG_SIG_MIN, LOG_SIG_MAX in Hc.
  do 3 eexists.
  split; [apply (sample_spec a state eps mean log_std n_actions); auto|].
  apply vsum_tab_le. intros i Hi.
  rewrite ln_exp.
  assert (Hls : -20 <= nth i log_std 0)
    by (apply Hc, nth_In; rewrite Hl; exact Hi).
  assert (Hq : - (raw_sample mean log_std eps i - nth i mean 0) ^ 2
               / (2 * exp (nth i log_std 0) ^ 2) <= 0).
  { pose proof (exp_pos (nth i log_std 0)) as Hp.
    assert (0 < / (2 * exp (nth i log_std 0) ^ 2))
      by (apply Rinv_0_lt_compat; nra).
    pose proof (pow2_ge_0 (raw_sample mean log_std eps i - nth i mean 0)).
    unfold Rdiv. nra. }
  assert (Hj : ln epsilon
               <= ln (bc (action_scale a) i
                      * (1 - tanh (raw_sample mean log_std eps i) ^ 2)
                      + epsilon)).
  { apply ln_le; [unfold epsilon; lra|].
    pose proof (tanh_sqr_lt_1 (raw_sample mean log_std eps i)).
    specialize (Hsc i).
    assert (0 <= bc (action_scale a) i
                 * (1 - tanh (raw_sample mean log_std eps i) ^ 2))
      by (apply Rmult_le_pos; lra).
    lra. }
  lra.
Qed.

Lemma sample_log_prob_upper_bound_witness :
  exists action log_prob mean_action,
    sample (actor0 (Some unit_box)) [0] [1]
    = Ok (action, log_prob, mean_action) /\
    log_prob <= INR 1 * (20 - ln (sqrt (2 * PI)) - ln epsilon).
Proof.
  apply (sample_log_prob_upper_bound 1 1 1 (actor0 (Some unit_box)) [0] [1]
           (actor0_shape unit_box eq_refl eq_refl) eq_refl eq_refl).
  intros i. simpl. lra.
Defined.

Lemma dot_zero row n : dot row (repeat 0 n) = 0.
Proof.
  unfold dot. revert n. induction row as [|a row IH]; intros [|n]; simpl;
    try reflexivity.
  rewrite IH. ring.
Qed.

Lemma linear_init_zero rows cols w :
  Matrix_shape rows cols w ->
  linear (weights_init_ w) (repeat 0 cols) = Ok (repeat 0 rows).
Proof.
  intros [Hlen Hrow]. unfold linear, weights_init_. simpl.
  assert (E : forallb (fun row => (length row =? length (repeat 0%R cols))%nat)
                       w = true).
  { apply forallb_forall. intros row Hin. rewrite Forall_forall in Hrow.
    apply Nat.eqb_eq. rewrite repeat_length. now apply Hrow. }
  rewrite E, length_map, Nat.eqb_refl. simpl. f_equal.
  subst rows. clear. induction w as [|row w IH]; simpl; [reflexivity|].
  rewrite dot_zero, IH. f_equal. ring.
Qed.


(** ** Further properties of agent.py *)

Lemma Actor_init_shape n_inputs n_actions hidden_dim w1 w2 wm ws sp :
  Matrix_shape hidden_dim n_inputs w1 ->
  Matrix_shape hidden_dim hidden_dim w2 ->
  Matrix_shape n_actions hidden_dim wm ->
  Matrix_shape n_actions hidden_dim ws ->
  length (low sp) = n_actions -> length (high sp) = n_actions ->
  Actor_shape n_inputs n_actions hidden_dim (Actor_init w1 w2 wm ws (Some sp)).
Proof.
  intros [L1 F1] [L2 F2] [Lm Fm] [Ls Fs] Hl Hh.
  unfold Actor_shape, Linear_shape, broadcastable. simpl.
  rewrite !length_map.
  repeat split; auto; left; rewrite map2_length; congruence.
Qed.

Section AgentExtras.

Context {CR : Critic} {CO : Optimizer CriticNet} {AO : Optimizer Actor}
        {RB : ReplayBuffer} {EV : Environment}.

Local Open Scope agent_scope.

(** X8: [select_action] draws the noise of one action whether or not it is
    used: on a well-shaped actor and state it returns an action of [n_actions]
    entries and moves the noise generator by [n_actions], for [evaluate =
    True] as for [evaluate = False], and changes nothing else. *)
Theorem select_action_consumes_noise
    (n_inputs n_actions hidden_dim : nat) (state : vec) (evaluate : bool)
    (w : World) :
  Actor_shape n_inputs n_actions hidden_dim (actor (self w)) ->
  length state = n_inputs ->
  exists action,
    select_action state evaluate w
    = (Ok action, set_cursor (cursor w + n_actions) w) /\
    length action = n_actions.
Proof.
  intros Ha Hs.
  destruct (forward_total _ _ _ _ _ Ha Hs) as (mean & log_std & Hf & _ & _).
  rewrite (select_action_value _ _ _ _ evaluate w mean log_std Ha Hs Hf).
  eexists. split; [reflexivity|]. apply tab_length.
Qed.

(** X9: On a state whose length is not [n_inputs], [select_action] raises
    [RuntimeError] before any noise is drawn: the world is left as it was. *)
Theorem select_action_state_length
    (n_inputs n_actions hidden_dim : nat) (state : vec) (evaluate : bool)
    (w : World) :
  Actor_shape n_inputs n_actions hidden_dim (actor (self w)) ->
  (0 < hidden_dim)%nat ->
  length state <> n_inputs ->
  select_action state evaluate w = (Raise RuntimeError, w).
Proof.
  intros Ha Hh Hs. destruct Ha as (H1 & _).
  assert (Hf : forward (actor (self w)) state = Raise RuntimeError).
  { unfold forward. now rewrite (linear_shape_error _ _ _ _ H1 Hh Hs). }
  unfold select_action. cbv zeta.
  unfold bind at 1. unfold Actor_sample. unfold bind at 1.
  unfold rsample_noise. unfold bind at 1. unfold gets at 1.
  unfold bind at 1. unfold lift at 1. cbn [mapR]. rewrite Hf. reflexivity.
Qed.


(** *** [update_parameters] *)

Lemma update_parameters_outcome
    (n_inputs n_actions hidden_dim : nat) (batch_size updates : Z) (w : World)
    (batch : list Transition) (m' : Memory) :
  sample_buffer (memory w) batch_size = (Ok batch, m') ->
  Actor_shape n_inputs n_actions hidden_dim (actor (self w)) ->
  Forall (fun t => length (t_state t) = n_inputs /\
                   length (t_next_state t) = n_inputs) batch ->
  exists target c' o',
    fst (next_q_value batch (set_memory m' w)) = Ok target /\
    opt_step
      (fun c => rbind (qf_losses (map t_state batch) (map t_action batch)
                                 target c)
                      (fun l => Ok (fst l + snd l)))
      (critic (self w)) (critic_optim (self w)) = (c', o') /\
    update_parameters batch_size updates w
    = (Raise TypeError,
       set_cursor (cursor w + length batch * n_actions
                   + length batch * n_actions)
         (set_self (with_critic (self w) c' o') (set_memory m' w))).
Proof.
  intros Hsb Ha Hb.
  assert (Hnext : Forall (fun t => length (t_next_state t) = n_inputs) batch)
    by (eapply Forall_impl; [|exact Hb]; intros t [_ H]; exact H).
  assert (Hcur : Forall (fun s : vec => length s = n_inputs)
                        (map t_state batch)).
  { apply Forall_forall. intros s Hin. apply in_map_iff in Hin.
    destruct Hin as (t & <- & Hin). rewrite Forall_forall in Hb.
    now apply Hb. }
  destruct (next_q_value_spec n_inputs n_actions hidden_dim batch
              (set_memory m' w) Ha Hnext) as (out & _ & Elen & Hq).
  exists (map2 (td_target_row (self (set_memory m' w))) batch out).
  destruct (opt_step
              (fun c => rbind (qf_losses (map t_state batch)
                                 (map t_action batch)
                                 (map2 (td_target_row (self (set_memory m' w)))
                                       batch out) c)
                              (fun l => Ok (fst l + snd l)))
              (critic (self w)) (critic_optim (self w)))
    as [c' o'] eqn:Eopt.
  exists c', o'. split; [now rewrite Hq|]. split; [reflexivity|].
  unfold update_parameters. cbv zeta.
  unfold bind at 1. unfold memory_sample_buffer at 1. rewrite Hsb.
  unfold bind at 1. rewrite Hq.
  unfold bind at 1. unfold gets at 1. cbv iota beta.
  destruct (qf_losses_total (map t_state batch) (map t_action batch)
              (map2 (td_target_row (self (set_memory m' w))) batch out)
              (critic (self (set_cursor
                               (cursor (set_memory m' w)
                                + length batch * n_actions)
                               (set_memory m' w)))))
    as [l El].
  { rewrite length_map, map2_length_min. lia. }
  { rewrite length_map, map2_length_min. lia. }
  unfold bind at 1. unfold lift at 1. rewrite El.
  unfold bind at 1. unfold critic_optim_step at 1, modify. cbv zeta.
  cbn [self set_cursor set_memory critic critic_optim].
  cbn [self set_memory] in Eopt. rewrite Eopt.
  match goal with
  | |- bind (rsample_noise _) _ ?w3 = _ =>
      pose proof (rsample_noise_spec n_inputs n_actions hidden_dim
                    (map t_state batch) w3 Ha Hcur) as Hn;
      destruct (sample_rows_total n_inputs n_actions hidden_dim
                  (actor (self w3)) (map t_state batch)
                  (batch_noise (noise w3) (cursor w3) n_actions
                     (length (map t_state batch)))
                  Ha Hcur (batch_noise_rows _ _ _ _)
                  (batch_noise_length _ _ _ _)) as (out2 & E2 & Elen2)
  end.
  unfold bind at 1. rewrite Hn.
  unfold bind at 1. unfold gets at 1. cbv iota beta.
  unfold bind at 1. unfold lift at 1.
  cbn [self set_cursor set_self set_memory with_critic alpha critic actor
       noise cursor] in *.
  rewrite (actor_loss_TypeError _ _ _ _ _ out2 E2 Elen2).
  rewrite length_map. reflexivity.
Qed.

(** X11: On a well-shaped actor and batch, [update_parameters] has stepped the
    critic optimizer on the sum of the two critic losses before it raises at
    line 66: afterwards the critic and its optimizer state are those of that
    step, the actor and its optimizer are untouched, the buffer is the one the
    sampler left, and the noise of two batches of actions has been drawn. *)
Theorem update_parameters_partial_update
    (n_inputs n_actions hidden_dim : nat) (batch_size updates : Z) (w : World)
    (batch : list Transition) (m' : Memory) :
  sample_buffer (memory w) batch_size = (Ok batch, m') ->
  Actor_shape n_inputs n_actions hidden_dim (actor (self w)) ->
  Forall (fun t => length (t_state t) = n_inputs /\
                   length (t_next_state t) = n_inputs) batch ->
  exists target,
    fst (next_q_value batch (set_memory m' w)) = Ok target /\
    (critic (self (snd (update_parameters batch_size updates w))),
     critic_optim (self (snd (update_parameters batch_size updates w))))
    = opt_step
        (fun c => rbind (qf_losses (map t_state batch) (map t_action batch)
                                   target c)
                        (fun l => Ok (fst l + snd l)))
        (critic (self w)) (critic_optim (self w)) /\
    actor (self (snd (update_parameters batch_size updates w)))
    = actor (self w) /\
    actor_optim (self (snd (update_parameters batch_size updates w)))
    = actor_optim (self w) /\
    memory (snd (update_parameters batch_size updates w)) = m' /\
    cursor (snd (update_parameters batch_size updates w))
    = (cursor w + length batch * n_actions + length batch * n_actions)%nat.
Proof.
  intros Hsb Ha Hb.
  destruct (update_parameters_outcome _ _ _ batch_size updates w batch m'
              Hsb Ha Hb) as (target & c' & o' & Hq & Eopt & E).
  exists target. split; [exact Hq|]. rewrite E, Eopt.
  repeat split; reflexivity.
Qed.

Lemma linear_exn l x e : linear l x = Raise e -> e = RuntimeError.
Proof.
  unfold linear. destruct (_ && _); intros H; [discriminate|].
  now inversion H.
Qed.

Lemma forward_exn a s e : forward a s = Raise e -> e = RuntimeError.
Proof.
  unfold forward. intros H.
  destruct (linear (linear1 a) s) as [h1|e1] eqn:E1; cbn [rbind] in H;
    [|inversion H; subst; eapply linear_exn; eassumption].
  destruct (linear (linear2 a) (relu h1)) as [h2|e2] eqn:E2; cbn [rbind] in H;
    [|inversion H; subst; eapply linear_exn; eassumption].
  destruct (linear (mean_linear a) (relu h2)) as [m|e3] eqn:E3;
    cbn [rbind] in H;
    [|inversion H; subst; eapply linear_exn; eassumption].
  destruct (linear (log_std_linear a) (relu h2)) as [ls|e4] eqn:E4;
    cbn [rbind] in H;
    [discriminate|inversion H; subst; eapply linear_exn; eassumption].
Qed.

Lemma mapR_forward_bad n_inputs n_actions hidden_dim a (states : list vec) :
  Actor_shape n_inputs n_actions hidden_dim a -> (0 < hidden_dim)%nat ->
  Exists (fun s => length s <> n_inputs) states ->
  mapR (forward a) states = Raise RuntimeError.
Proof.
  intros Ha Hh Hex. induction Hex as [s states Hs|s states _ IH]; cbn [mapR].
  - destruct Ha as (H1 & _). unfold forward at 1.
    now rewrite (linear_shape_error _ _ _ _ H1 Hh Hs).
  - destruct (forward a s) as [b|e] eqn:E; cbn [rbind].
    + now rewrite IH.
    + now rewrite (forward_exn _ _ _ E).
Qed.

(** X12: A batch with a next state whose length is not [n_inputs] makes
    [update_parameters] raise [RuntimeError] at its first use of the actor:
    nothing is updated and no noise is drawn; only the buffer is as the
    sampler left it. *)
Theorem update_parameters_bad_batch
    (n_inputs n_actions hidden_dim : nat) (batch_size updates : Z) (w : World)
    (batch : list Transition) (m' : Memory) :
  sample_buffer (memory w) batch_size = (Ok batch, m') ->
  Actor_shape n_inputs n_actions hidden_dim (actor (self w)) ->
  (0 < hidden_dim)%nat ->
  Exists (fun t => length (t_next_state t) <> n_inputs) batch ->
  update_parameters batch_size updates w
  = (Raise RuntimeError, set_memory m' w).
Proof.
  intros Hsb Ha Hh Hex.
  assert (Hbad : mapR (forward (actor (self w))) (map t_next_state batch)
                 = Raise RuntimeError).
  { apply (mapR_forward_bad n_inputs n_actions hidden_dim); auto.
    apply Exists_exists in Hex. destruct Hex as (t & Hin & Ht).
    apply Exists_exists. exists (t_next_state t). split; [|exact Ht].
    now apply in_map. }
  unfold update_parameters. cbv zeta.
  unfold bind at 1. unfold memory_sample_buffer at 1. rewrite Hsb.
  unfold bind at 1. unfold next_q_value. cbv zeta.
  unfold bind at 1. unfold Actor_sample. unfold bind at 1.
  unfold rsample_noise. unfold bind at 1. unfold gets at 1.
  unfold bind at 1. unfold lift at 1.
  cbn [self set_memory]. rewrite Hbad. reflexivity.
Qed.

(** X13: no call of [update_parameters] returns, and none changes the actor:
    whatever the world, the batch size and the counter, the call ends in an
    exception raised at line 66 or before, with the actor and its optimizer
    state as they were. *)
Theorem update_parameters_never_updates_actor
    (batch_size updates : Z) (w : World) :
  exists e w',
    update_parameters batch_size updates w = (Raise e, w') /\
    actor (self w') = actor (self w) /\
    actor_optim (self w') = actor_optim (self w).
Proof.
  unfold update_parameters. cbv zeta.
  unfold bind at 1.
  assert (F1 : self (snd (memory_sample_buffer batch_size w)) = self w).
  { unfold memory_sample_buffer.
    destruct (sample_buffer (memory w) batch_size). reflexivity. }
  destruct (memory_sample_buffer batch_size w) as [[batch|e] w1];
    simpl in F1; [|exists e, w1; rewrite F1; auto].
  unfold bind at 1.
  pose proof (next_q_value_only_cursor batch w1) as F2.
  destruct (next_q_value batch w1) as [[target|e] w2];
    unfold only_cursor in F2; simpl in F2;
    [|exists e, w2; rewrite F2; cbn [self set_cursor]; rewrite F1; auto].
  unfold bind at 1. unfold gets at 1. cbv iota beta.
  unfold bind at 1. unfold lift at 1.
  destruct (qf_losses _ _ _ _) as [l|e];
    [|exists e, w2; rewrite F2; cbn [self set_cursor]; rewrite F1; auto].
  unfold bind at 1. unfold critic_optim_step at 1, modify. cbv zeta.
  destruct (opt_step _ (critic (self w2)) (critic_optim (self w2)))
    as [c' o'].
  unfold bind at 1.
  match goal with
  | |- context [rsample_noise ?st ?w3] =>
      pose proof (rsample_noise_only_cursor st w3) as F3;
      destruct (rsample_noise st w3) as [[eps|e] w4];
      unfold only_cursor in F3; simpl in F3
  end.
  - unfold bind at 1. unfold gets at 1. cbv iota beta.
    unfold bind at 1. unfold lift at 1.
    destruct (actor_loss_raises (alpha (self w4)) (critic (self w4))
                (map t_state batch) eps (actor (self w4))) as [x Hx].
    rewrite Hx. exists x, w4. split; [reflexivity|].
    rewrite F3. cbn [self set_cursor set_self with_critic actor actor_optim].
    rewrite F2. cbn [self set_cursor]. rewrite F1. auto.
  - exists e, w4. split; [reflexivity|].
    rewrite F3. cbn [self set_cursor set_self with_critic actor actor_optim].
    rewrite F2. cbn [self set_cursor]. rewrite F1. auto.
Qed.

(** *** [train] *)

Lemma same_self_refl w : same_self w w.
Proof. reflexivity. Qed.

Lemma same_self_trans w1 w2 w3 :
  same_self w1 w2 -> same_self w2 w3 -> same_self w1 w3.
Proof. unfold same_self. congruence. Qed.

Lemma only_cursor_same_self {A} (c : M World A) :
  preserves only_cursor c -> preserves same_self c.
Proof.
  intros H w. specialize (H w). unfold only_cursor in H. unfold same_self.
  now rewrite H.
Qed.

Lemma batch_sizem_bind_same_self {A} (k : Z -> M World A) :
  preserves same_self (bind batch_sizem k).
Proof. intros w. reflexivity. Qed.

Lemma update_block_same_self batch_size updates_per_step updates :
  preserves same_self (update_block batch_size updates_per_step updates).
Proof.
  unfold update_block.
  apply preserves_bind; [exact same_self_trans| |intros can].
  - intros w. unfold memory_can_sample.
    destruct (can_sample (memory w) batch_size). reflexivity.
  - destruct can; [|apply preserves_ret, same_self_refl].
    apply preserves_for_range;
      [exact same_self_refl|exact same_self_trans|intros i u].
    apply batch_sizem_bind_same_self.
Qed.

Lemma train_step_same_self batch_size updates_per_step max_episode_steps L :
  preserves same_self
    (train_step batch_size updates_per_step max_episode_steps L).
Proof.
  unfold train_step.
  apply preserves_bind; [exact same_self_trans
                        |apply only_cursor_same_self,
                           select_action_only_cursor|intros action].
  apply preserves_bind; [exact same_self_trans
                        |apply update_block_same_self|intros u].
  apply preserves_bind; [exact same_self_trans| |intros [[s r] d]].
  - intros w. unfold env_step_call.
    destruct (env_step (env w) action). reflexivity.
  - cbv zeta.
    apply preserves_bind; [exact same_self_trans|
                          |intros _; apply preserves_ret, same_self_refl].
    intros w. unfold memory_store_transition.
    destruct (store_transition (memory w) _). reflexivity.
Qed.

Lemma episode_loop_same_self fuel batch_size updates_per_step
    max_episode_steps L :
  preserves same_self
    (episode_loop fuel batch_size updates_per_step max_episode_steps L).
Proof.
  revert L. induction fuel as [|fuel IH]; intros L; simpl.
  - apply preserves_ret, same_self_refl.
  - destruct (negb (done L) && (episode_steps L <? max_episode_steps)%Z).
    + apply preserves_bind; [exact same_self_trans
                            |apply train_step_same_self|intros L'; apply IH].
    + apply preserves_ret, same_self_refl.
Qed.

(** X14: [train] never changes the agent: because every update stops at the
    unbound name of line 100 before [update_parameters] is called, the actor,
    the critic, the target critic and the optimizers are after [train],
    whether it returns or raises, what they were before it. *)
Theorem train_keeps_agent
    (episodes batch_size updates_per_step max_episode_steps : Z) (w : World) :
  self (snd (train episodes batch_size updates_per_step max_episode_steps w))
  = self w.
Proof.
  revert w. change (preserves same_self
                      (train episodes batch_size updates_per_step
                             max_episode_steps)).
  unfold train. cbv zeta.
  apply preserves_bind; [exact same_self_trans|
                        |intros tu; apply preserves_ret, same_self_refl].
  apply preserves_for_range;
    [exact same_self_refl|exact same_self_trans|intros episode tu].
  unfold train_episode.
  apply preserves_bind; [exact same_self_trans| |intros s].
  { intros w. unfold env_reset_call. destruct (env_reset (env w)).
    reflexivity. }
  apply preserves_bind; [exact same_self_trans
                        |apply episode_loop_same_self|intros L].
  apply preserves_bind; [exact same_self_trans| |intros _].
  { intros w. reflexivity. }
  apply preserves_bind; [exact same_self_trans|
                        |intros _; apply preserves_ret, same_self_refl].
  unfold save_checkpoint.
  destruct (episode mod 10 =? 0)%Z; apply preserves_ret, same_self_refl.
Qed.

Lemma update_block_ok batch_size updates_per_step updates w u' w' :
  update_block batch_size updates_per_step updates w = (Ok u', w') ->
  u' = updates.
Proof.
  unfold update_block, bind at 1, memory_can_sample. intros H.
  destruct (can_sample (memory w) batch_size) as [[can|e] m];
    [|discriminate].
  destruct can; [|now inversion H].
  destruct (Z.to_nat updates_per_step) as [|n]; [now inversion H|].
  cbn [for_range] in H. discriminate.
Qed.

(** What a completed pass through the body of the loop does to the local
    variables and to the record of stored transitions. *)
Lemma train_step_ok batch_size updates_per_step max_episode_steps L w L' w' :
  train_step batch_size updates_per_step max_episode_steps L w = (Ok L', w') ->
  exists action reward,
    stored w'
    = mkTransition (state L) action reward (state L')
        (mask (episode_steps L + 1) max_episode_steps (done L')) :: stored w /\
    total_numsteps L' = (total_numsteps L + 1)%Z /\
    updates L' = updates L /\
    episode_reward L' = episode_reward L + reward /\
    episode_steps L' = (episode_steps L + 1)%Z.
Proof.
  unfold train_step. intros H.
  pose proof (only_cursor_same_stored _
                (select_action_only_cursor (state L) false) w) as H1.
  unfold bind at 1 in H.
  destruct (select_action (state L) false w) as [[action|e] w1];
    simpl in H1; [|discriminate].
  pose proof (update_block_same_stored batch_size updates_per_step
                (updates L) w1) as H2.
  unfold bind at 1 in H.
  destruct (update_block batch_size updates_per_step (updates L) w1)
    as [[u|e] w2] eqn:Eu; simpl in H2; [|discriminate].
  apply update_block_ok in Eu. subst u.
  pose proof (env_step_call_same_stored action w2) as H3.
  unfold bind at 1 in H.
  destruct (env_step_call action w2) as [[[[next_state reward] d]|e] w3];
    simpl in H3; [|discriminate].
  exists action, reward.
  unfold bind, memory_store_transition in H.
  destruct (store_transition (memory w3) _) as [[[]|e] m4]; simpl in H;
    inversion H; subst; clear H; unfold same_stored in *; simpl.
  repeat split; congruence.
Qed.

Lemma vsum_app x y : vsum (x ++ y) = vsum x + vsum y.
Proof.
  induction x as [|a x IH]; simpl; [ring|]. rewrite IH. ring.
Qed.

Lemma episode_loop_trace batch_size updates_per_step max_episode_steps fuel :
  forall L w L' w',
    episode_loop fuel batch_size updates_per_step max_episode_steps L w
    = (Ok L', w') ->
    (episode_steps L <= max_episode_steps)%Z ->
    exists new,
      stored w' = new ++ stored w /\
      Z.of_nat (length new) = (episode_steps L' - episode_steps L)%Z /\
      total_numsteps L' = (total_numsteps L + Z.of_nat (length new))%Z /\
      updates L' = updates L /\
      episode_reward L' = episode_reward L + vsum (map t_reward (rev new)) /\
      (episode_steps L' <= max_episode_steps)%Z /\
      chain (state L) (rev new) (state L').
Proof.
  induction fuel as [|fuel IH]; intros L w L' w' H Hle.
  - simpl in H. inversion H; subst. exists []. simpl.
    repeat split; try lia; try lra; reflexivity.
  - cbn [episode_loop] in H.
    destruct (negb (done L) && (episode_steps L <? max_episode_steps)%Z) eqn:C.
    + apply andb_prop in C. destruct C as [_ Cs]. apply Z.ltb_lt in Cs.
      unfold bind in H.
      destruct (train_step batch_size updates_per_step max_episode_steps L w)
        as [[L1|e] w1] eqn:E; [|discriminate].
      destruct (train_step_ok _ _ _ _ _ _ _ E)
        as (action & reward & Hst & Htn & Hu & Her & Hs).
      destruct (IH L1 w1 L' w' H ltac:(lia))
        as (new & Hst' & Hlen & Htn' & Hu' & Her' & Hle' & Hch).
      exists (new ++ [mkTransition (state L) action reward (state L1)
                        (mask (episode_steps L + 1) max_episode_steps
                              (done L1))]).
      rewrite rev_app_distr, length_app. simpl.
      split; [rewrite Hst', Hst, <- app_assoc; reflexivity|].
      repeat split; try lia; try congruence; try assumption.
      rewrite Her', Her. lra.
    + inversion H; subst. exists []. simpl.
      repeat split; try lia; try lra; reflexivity.
Qed.

(** X15: The bookkeeping of an episode whose loop ends: one transition is
    stored per environment step, [total_numsteps] grows by their number,
    [episode_steps] never passes the cap, the update counter is what it was,
    and [episode_reward] has grown by the sum of the rewards of the stored
    transitions. *)
Theorem run_episode_accounting
    (batch_size updates_per_step max_episode_steps : Z)
    (L L' : Locals) (w w' : World) :
  run_episode batch_size updates_per_step max_episode_steps L w = (Ok L', w') ->
  (episode_steps L <= max_episode_steps)%Z ->
  exists new,
    stored w' = new ++ stored w /\
    Z.of_nat (length new) = (episode_steps L' - episode_steps L)%Z /\
    total_numsteps L' = (total_numsteps L + Z.of_nat (length new))%Z /\
    (episode_steps L' <= max_episode_steps)%Z /\
    updates L' = updates L /\
    episode_reward L' = episode_reward L + vsum (map t_reward (rev new)).
Proof.
  intros H Hle. unfold run_episode in H.
  destruct (episode_loop_trace _ _ _ _ _ _ _ _ H Hle)
    as (new & H1 & H2 & H3 & H4 & H5 & H6 & _).
  exists new. auto 10.
Qed.

(** X16: The transitions stored during an episode form a trajectory: the first
    starts at the state the episode had when the loop began, each next one
    starts at the [next_state] of the one before, and the last ends at the
    state the loop ends with. *)
Theorem run_episode_chain
    (batch_size updates_per_step max_episode_steps : Z)
    (L L' : Locals) (w w' : World) :
  run_episode batch_size updates_per_step max_episode_steps L w = (Ok L', w') ->
  (episode_steps L <= max_episode_steps)%Z ->
  exists new,
    stored w' = new ++ stored w /\
    chain (state L) (rev new) (state L').
Proof.
  intros H Hle. unfold run_episode in H.
  destruct (episode_loop_trace _ _ _ _ _ _ _ _ H Hle)
    as (new & H1 & _ & _ & _ & _ & _ & H7).
  exists new. auto.
Qed.

(** X17: When the buffer can already sample, [train] stops in the first pass
    of the first episode: the environment is reset and one action is sampled,
    then the first update raises [NameError]; the environment is never stepped
    and no transition is stored. *)
Theorem train_aborts_when_buffer_ready
    (n_inputs n_actions hidden_dim : nat)
    (episodes batch_size updates_per_step max_episode_steps : Z) (w : World)
    (s0 : vec) (e1 : EnvState) (m' : Memory) :
  env_reset (env w) = (Ok s0, e1) ->
  Actor_shape n_inputs n_actions hidden_dim (actor (self w)) ->
  length s0 = n_inputs ->
  can_sample (memory w) batch_size = (Ok true, m') ->
  (0 < episodes)%Z -> (0 < updates_per_step)%Z -> (0 < max_episode_steps)%Z ->
  train episodes batch_size updates_per_step max_episode_steps w
  = (Raise (NameError "batch_sizem"),
     set_memory m' (set_cursor (cursor w + n_actions) (set_env e1 w))).
Proof.
  intros Hreset Ha Hs0 Hcan He Hu Hmax.
  destruct (forward_total _ _ _ _ _ Ha Hs0) as (mean & log_std & Hf & _ & _).
  unfold train. cbv zeta.
  destruct (Z.to_nat episodes) as [|n] eqn:En; [lia|].
  cbn [for_range]. unfold bind at 1. unfold bind at 1.
  unfold train_episode. unfold bind at 1.
  unfold env_reset_call at 1. rewrite Hreset.
  unfold bind at 1. rewrite run_episode_unfold.
  cbn [done episode_steps negb andb].
  rewrite (proj2 (Z.ltb_lt 0 max_episode_steps) Hmax).
  unfold bind at 1. unfold train_step. unfold bind at 1. cbn [state].
  rewrite (select_action_value n_inputs n_actions hidden_dim s0 false
             (set_env e1 w) mean log_std Ha Hs0 Hf).
  unfold bind at 1.
  rewrite (update_block_can_sample batch_size updates_per_step _
             (set_cursor (cursor (set_env e1 w) + n_actions) (set_env e1 w))
             m' Hcan Hu).
  reflexivity.
Qed.

Section Rollout.

Variables (n_inputs n_actions hidden_dim : nat).
Variables (batch_size updates_per_step max_episode_steps : Z).

Hypothesis never_ready :
  forall m, exists m', can_sample m batch_size = (Ok false, m').
Hypothesis reset_ok :
  forall e, exists s e', env_reset e = (Ok s, e') /\ length s = n_inputs.
Hypothesis step_ok :
  forall e a, exists s r d e',
    env_step e a = (Ok (s, r, d), e') /\ length s = n_inputs.
Hypothesis store_ok :
  forall m t, exists m', store_transition m t = (Ok tt, m').

Lemma train_step_total L w :
  Actor_shape n_inputs n_actions hidden_dim (actor (self w)) ->
  length (state L) = n_inputs ->
  exists L' w',
    train_step batch_size updates_per_step max_episode_steps L w = (Ok L', w') /\
    length (state L') = n_inputs /\ self w' = self w.
Proof.
  intros Ha Hs.
  destruct (forward_total _ _ _ _ _ Ha Hs) as (mean & log_std & Hf & _ & _).
  unfold train_step. unfold bind at 1.
  rewrite (select_action_value n_inputs n_actions hidden_dim (state L) false
             w mean log_std Ha Hs Hf).
  match goal with
  | |- context [bind (update_block _ _ _) _ ?w1] =>
      destruct (never_ready (memory w1)) as [m1 Hc];
      unfold bind at 1;
      rewrite (update_block_cannot_sample batch_size updates_per_step
                 (updates L) w1 m1 Hc)
  end.
  match goal with
  | |- context [bind (env_step_call ?a) _ ?w2] =>
      destruct (step_ok (env w2) a) as (s & r & d & e' & Hstep & Hlen);
      unfold bind at 1; unfold env_step_call at 1; rewrite Hstep
  end.
  cbv zeta.
  match goal with
  | |- context [bind (memory_store_transition ?t) _ ?w3] =>
      destruct (store_ok (memory w3) t) as [m4 Hst];
      unfold bind at 1; unfold memory_store_transition at 1; rewrite Hst
  end.
  do 2 eexists. split; [reflexivity|]. split; [exact Hlen|reflexivity].
Qed.

Lemma episode_loop_total fuel :
  forall L w,
    Actor_shape n_inputs n_actions hidden_dim (actor (self w)) ->
    length (state L) = n_inputs ->
    exists L' w',
      episode_loop fuel batch_size updates_per_step max_episode_steps L w
      = (Ok L', w') /\ self w' = self w.
Proof.
  induction fuel as [|fuel IH]; intros L w Ha Hs.
  - exists L, w. split; reflexivity.
  - cbn [episode_loop].
    destruct (negb (done L) && (episode_steps L <? max_episode_steps)%Z);
      [|exists L, w; split; reflexivity].
    destruct (train_step_total L w Ha Hs) as (L1 & w1 & E & Hs1 & Hself).
    unfold bind. rewrite E.
    destruct (IH L1 w1) as (L' & w' & E' & Hself');
      [rewrite Hself; exact Ha|exact Hs1|].
    exists L', w'. split; [exact E'|congruence].
Qed.

Lemma train_episodes_total n :
  forall start tu w,
    Actor_shape n_inputs n_actions hidden_dim (actor (self w)) ->
    exists tu' w',
      for_range n start
        (train_episode batch_size updates_per_step max_episode_steps) tu w
      = (Ok tu', w').
Proof.
  induction n as [|n IH]; intros start tu w Ha.
  - exists tu, w. reflexivity.
  - cbn [for_range]. unfold bind at 1. unfold train_episode.
    destruct (reset_ok (env w)) as (s & e' & Hr & Hlen).
    unfold bind at 1. unfold env_reset_call at 1. rewrite Hr.
    destruct (episode_loop_total
                (Z.to_nat (max_episode_steps - 0))
                (mkLocals (fst tu) (snd tu) 0 0 false s) (set_env e' w) Ha Hlen)
      as (L' & w' & E & Hself).
    unfold bind at 1. unfold run_episode. cbn [episode_steps]. rewrite E.
    unfold bind at 1. unfold add_scalar at 1, modify.
    unfold bind at 1. unfold save_checkpoint.
    replace ((if (start mod 10 =? 0)%Z then ret tt else ret tt)
               (set_writer (("reward/train", episode_reward L', start)
                            :: writer w') w'))
      with (Ok tt, set_writer (("reward/train", episode_reward L', start)
                               :: writer w') w')
      by (destruct (start mod 10 =? 0)%Z; reflexivity).
    unfold ret at 1. apply IH. cbn [self set_writer]. rewrite Hself. exact Ha.
Qed.

End Rollout.


Lemma writes_rewards_refl w : writes_rewards w w.
Proof. exists []. auto. Qed.

Lemma writes_rewards_trans w1 w2 w3 :
  writes_rewards w1 w2 -> writes_rewards w2 w3 -> writes_rewards w1 w3.
Proof.
  intros (n1 & E1 & F1) (n2 & E2 & F2). exists (n2 ++ n1). split.
  - rewrite E2, E1. now rewrite app_assoc.
  - apply Forall_app. auto.
Qed.

Lemma same_writer_writes_rewards {A} (c : M World A) :
  (forall w, writer (snd (c w)) = writer w) -> preserves writes_rewards c.
Proof. intros H w. exists []. split; [apply H|constructor]. Qed.

Lemma train_step_writes_rewards batch_size updates_per_step
    max_episode_steps L :
  preserves writes_rewards
    (train_step batch_size updates_per_step max_episode_steps L).
Proof.
  unfold train_step.
  apply preserves_bind; [exact writes_rewards_trans| |intros action].
  { apply same_writer_writes_rewards. intros w.
    pose proof (select_action_only_cursor (state L) false w) as H.
    unfold only_cursor in H. now rewrite H. }
  apply preserves_bind; [exact writes_rewards_trans| |intros u].
  { unfold update_block.
    apply preserves_bind; [exact writes_rewards_trans| |intros can].
    - apply same_writer_writes_rewards. intros w. unfold memory_can_sample.
      destruct (can_sample (memory w) batch_size). reflexivity.
    - destruct can; [|apply preserves_ret, writes_rewards_refl].
      apply preserves_for_range;
        [exact writes_rewards_refl|exact writes_rewards_trans|intros i x].
      apply same_writer_writes_rewards. intros w. reflexivity. }
  apply preserves_bind; [exact writes_rewards_trans| |intros [[s r] d]].
  { apply same_writer_writes_rewards. intros w. unfold env_step_call.
    destruct (env_step (env w) action). reflexivity. }
  cbv zeta.
  apply preserves_bind; [exact writes_rewards_trans|
                        |intros _; apply preserves_ret, writes_rewards_refl].
  apply same_writer_writes_rewards. intros w. unfold memory_store_transition.
  destruct (store_transition (memory w) _). reflexivity.
Qed.

Lemma episode_loop_writes_rewards fuel batch_size updates_per_step
    max_episode_steps L :
  preserves writes_rewards
    (episode_loop fuel batch_size updates_per_step max_episode_steps L).
Proof.
  revert L. induction fuel as [|fuel IH]; intros L; simpl.
  - apply preserves_ret, writes_rewards_refl.
  - destruct (negb (done L) && (episode_steps L <? max_episode_steps)%Z).
    + apply preserves_bind; [exact writes_rewards_trans
                            |apply train_step_writes_rewards
                            |intros L'; apply IH].
    + apply preserves_ret, writes_rewards_refl.
Qed.

(** X19: The only scalars [train] ever sends to the summary writer are the
    episode rewards: every entry it adds carries the tag [reward/train], and
    none of the four [loss/...] series of lines 101-104 is written. *)
Theorem train_writes_only_rewards
    (episodes batch_size updates_per_step max_episode_steps : Z) (w : World) :
  exists new,
    writer (snd (train episodes batch_size updates_per_step
                       max_episode_steps w))
    = new ++ writer w /\
    Forall (fun x : String.string * R * Z => fst (fst x) = "reward/train") new.
Proof.
  revert w. change (preserves writes_rewards
                      (train episodes batch_size updates_per_step
                             max_episode_steps)).
  unfold train. cbv zeta.
  apply preserves_bind; [exact writes_rewards_trans|
                        |intros tu; apply preserves_ret, writes_rewards_refl].
  apply preserves_for_range;
    [exact writes_rewards_refl|exact writes_rewards_trans|intros episode tu].
  unfold train_episode.
  apply preserves_bind; [exact writes_rewards_trans| |intros s].
  { apply same_writer_writes_rewards. intros w. unfold env_reset_call.
    destruct (env_reset (env w)). reflexivity. }
  apply preserves_bind; [exact writes_rewards_trans
                        |apply episode_loop_writes_rewards|intros L].
  apply preserves_bind; [exact writes_rewards_trans| |intros _].
  { intros w. exists [("reward/train", episode_reward L, episode)].
    split; [reflexivity|]. constructor; [reflexivity|constructor]. }
  apply preserves_bind; [exact writes_rewards_trans|
                        |intros _; apply preserves_ret, writes_rewards_refl].
  unfold save_checkpoint.
  destruct (episode mod 10 =? 0)%Z; apply preserves_ret, writes_rewards_refl.
Qed.

End AgentExtras.

(** ** The further properties on the concrete agent *)

Lemma select_action_consumes_noise_witness :
  exists action,
    select_action [0] true (world0 None [])
    = (Ok action, set_cursor (cursor (world0 None []) + 1) (world0 None [])) /\
    length action = 1%nat.
Proof.
  exact (select_action_consumes_noise 1 1 1 [0] true (world0 None [])
           actor0_shape_None eq_refl).
Defined.

Lemma select_action_state_length_witness :
  length [0; 0] <> 1%nat /\
  select_action [0; 0] false (world0 None [])
  = (Raise RuntimeError, world0 None []).
Proof.
  assert (H : length [0; 0] <> 1%nat) by (simpl; discriminate).
  split; [exact H|].
  exact (select_action_state_length 1 1 1 [0; 0] false (world0 None [])
           actor0_shape_None (le_n 1) H).
Defined.


Lemma update_parameters_partial_update_witness :
  exists target,
    fst (next_q_value [transition0]
           (set_memory [transition0] (world0 None [transition0]))) = Ok target /\
    actor (self (snd (update_parameters 1 0 (world0 None [transition0]))))
    = actor0 None /\
    cursor (snd (update_parameters 1 0 (world0 None [transition0]))) = 2%nat.
Proof.
  destruct (update_parameters_partial_update 1 1 1 1 0
              (world0 None [transition0]) [transition0] [transition0]
              eq_refl actor0_shape_None
              (Forall_cons transition0 (conj eq_refl eq_refl) (Forall_nil _)))
    as (target & Hq & _ & Ha & _ & _ & Hc).
  exists target. split; [exact Hq|]. split; [exact Ha|exact Hc].
Defined.

Lemma update_parameters_bad_batch_witness :
  sample_buffer (memory (world0 None [transition_bad])) 1
  = (Ok [transition_bad], [transition_bad]) /\
  update_parameters 1 0 (world0 None [transition_bad])
  = (Raise RuntimeError,
     set_memory [transition_bad] (world0 None [transition_bad])).
Proof.
  split; [reflexivity|].
  apply (update_parameters_bad_batch 1 1 1 1 0 (world0 None [transition_bad])
           [transition_bad] [transition_bad] eq_refl actor0_shape_None
           (le_n 1)).
  constructor. simpl. discriminate.
Defined.

Lemma run_episode_accounting_witness :
  exists L' w' new,
    run_episode 10 1 5 locals0 (world0 None []) = (Ok L', w') /\
    stored w' = new ++ stored (world0 None []) /\
    Z.of_nat (length new) = 2%Z /\
    total_numsteps L' = 2%Z /\ updates L' = 0%Z.
Proof.
  destruct run_episode_done_early as (L' & w' & E & Hs & _).
  destruct (run_episode_accounting 10 1 5 locals0 L' (world0 None []) w' E)
    as (new & H1 & H2 & H3 & _ & H5 & _); [simpl; lia|].
  exists L', w', new. split; [exact E|]. split; [exact H1|].
  rewrite Hs in H2. simpl in H2, H3, H5.
  split; [exact H2|]. split; [rewrite H3, H2; reflexivity|exact H5].
Defined.

Lemma run_episode_chain_witness :
  exists L' w' new,
    run_episode 10 1 5 locals0 (world0 None []) = (Ok L', w') /\
    stored w' = new ++ stored (world0 None []) /\
    chain [0] (rev new) (state L').
Proof.
  destruct run_episode_done_early as (L' & w' & E & _ & _).
  destruct (run_episode_chain 10 1 5 locals0 L' (world0 None []) w' E)
    as (new & H1 & H2); [simpl; lia|].
  exists L', w', new. split; [exact E|]. split; [exact H1|exact H2].
Defined.

Lemma train_aborts_when_buffer_ready_witness :
  can_sample (memory (world0 None [transition0])) 1
  = (Ok true, [transition0]) /\
  fst (train 3 1 1 5 (world0 None [transition0]))
  = Raise (NameError "batch_sizem") /\
  stored (snd (train 3 1 1 5 (world0 None [transition0]))) = [].
Proof.
  split; [reflexivity|].
  rewrite (train_aborts_when_buffer_ready 1 1 1 3 1 1 5
             (world0 None [transition0]) [0] 0%Z [transition0]
             eq_refl actor0_shape_None eq_refl eq_refl
             eq_refl eq_refl eq_refl).
  split; reflexivity.
Defined.


